(** * reqx: retry engine, OAuth1 signing and multipart encoding

    A shallow embedding of the request execution layer of [reqx]
    (retry loop of [executeWithRetry], OAuth1 base-string construction of
    [generateOAuth1Signature], the request builder's map handling and the
    multipart writer driven by [buildMultipartForm]), together with the
    properties stated about them. *)

From Stdlib Require Import ZArith Lia Ascii String.
From stdpp Require Import base option list gmap strings sorting.

Local Open Scope Z_scope.

(** ** Machine integers

    Go's [int] and [time.Duration] are 64-bit two's-complement integers on
    the platforms the library targets; arithmetic wraps around silently. *)

Module Int64.

Definition minInt : Z := - 2 ^ 63.
Definition maxInt : Z := 2 ^ 63 - 1.

Definition inRange (z : Z) : Prop := minInt <= z <= maxInt.

Definition wrap (z : Z) : Z := (z + 2 ^ 63) mod 2 ^ 64 - 2 ^ 63.

Definition add (x y : Z) : Z := wrap (x + y).
Definition mul (x y : Z) : Z := wrap (x * y).

End Int64.

(** ** errors.go and the error values seen by the retry engine *)

(** The dynamic type of one link of a Go error chain, as far as
    [shouldRetry] can observe it: whether it has a [Timeout() bool] method
    (it implements [net.Error]) and whether it is a [*net.DNSError]. A
    [*net.DNSError] is itself a [net.Error]; its [Timeout()] reports its
    [IsTimeout] field. *)
Inductive ErrKind : Type :=
  | Plain (msg : string)
  | NetError (timeout : bool)
  | DNSError (isTimeout : bool).

(** An [error] value: the two package sentinels of errors.go, or a chain of
    links followed by [Unwrap]. *)
Inductive error : Type :=
  | ErrInvalidBody
  | ErrMaxRetriesExceeded
  | ErrLeaf (k : ErrKind)
  | ErrWrap (k : ErrKind) (inner : error).

(** [Timeout()] of a link that implements [net.Error]. *)
Definition netTimeout (k : ErrKind) : option bool :=
  match k with
  | Plain _ => None
  | NetError t => Some t
  | DNSError t => Some t
  end.

Definition isDNSKind (k : ErrKind) : bool :=
  match k with DNSError _ => true | _ => false end.

(** [errors.As(err, &netErr)] with [netErr net.Error]: the first link of the
    chain that implements [net.Error]; the result is what its [Timeout()]
    returns. *)
Fixpoint errorsAsNetError (e : error) : option bool :=
  match e with
  | ErrInvalidBody | ErrMaxRetriesExceeded => None
  | ErrLeaf k => netTimeout k
  | ErrWrap k inner =>
      match netTimeout k with
      | Some t => Some t
      | None => errorsAsNetError inner
      end
  end.

(** [errors.As(err, &dnsErr)] with [dnsErr *net.DNSError]. *)
Fixpoint errorsAsDNSError (e : error) : bool :=
  match e with
  | ErrInvalidBody | ErrMaxRetriesExceeded => false
  | ErrLeaf k => isDNSKind k
  | ErrWrap k inner => isDNSKind k || errorsAsDNSError inner
  end.

(** The links of a chain, outermost first. *)
Fixpoint chain (e : error) : list ErrKind :=
  match e with
  | ErrInvalidBody => [Plain "reqx.invalid_body"]
  | ErrMaxRetriesExceeded => [Plain "reqx.max_retries_exceeded"]
  | ErrLeaf k => [k]
  | ErrWrap k inner => k :: chain inner
  end.

(** A transport error is a timeout when the outermost [net.Error] of its
    chain reports [Timeout() = true]. *)
Definition IsTimeout (e : error) : Prop :=
  exists pre k post,
    chain e = pre ++ k :: post /\
    Forall (fun k' => netTimeout k' = None) pre /\
    netTimeout k = Some true.

(** A transport error is a DNS resolution failure when some link of its
    chain is a [*net.DNSError]. *)
Definition IsDNSFailure (e : error) : Prop :=
  exists isTimeout, DNSError isTimeout ∈ chain e.

(** ** types.go *)

Record RetryConfig : Type := mkRetryConfig {
  MaxRetries : Z;
  BackoffMs : Z
}.

Record Response : Type := mkResponse {
  Status : Z;
  Body : string;
  Headers : gmap string (list string);
  BodyReader : option string
}.

Definition checkStatus (status left right : Z) : bool :=
  if right =? 0 then left <=? status
  else (left <=? status) && (status <? right).

Definition IsSuccess (r : Response) : bool := checkStatus (Status r) 200 300.
Definition IsError (r : Response) : bool := checkStatus (Status r) 400 500.
Definition IsServerError (r : Response) : bool := checkStatus (Status r) 500 0.

(** ** The retry engine *)

Module Retry.

Definition StatusInternalServerError : Z := 500.
Definition StatusTooManyRequests : Z := 429.

Definition shouldRetry (err : option error) (statusCode : Z) : bool :=
  match err with
  | Some e =>
      match errorsAsNetError e with
      | Some true => true
      | _ => errorsAsDNSError e
      end
  | None =>
      (StatusInternalServerError <=? statusCode)
      || (statusCode =? StatusTooManyRequests)
  end.

(** [time.Millisecond], in nanoseconds. *)
Definition Millisecond : Z := 1000000.

(** [time.Duration(backoffMs*(attempt+1)) * time.Millisecond], a
    [time.Duration] in nanoseconds. *)
Definition backoffDuration (backoffMs attempt : Z) : Z :=
  Int64.mul (Int64.mul backoffMs (Int64.add attempt 1)) Millisecond.

(** What one run of the loop does to the outside world, in order: calls of
    the attempt function (with what each returned) and calls of
    [time.Sleep] (with the duration passed). *)
Inductive Event : Type :=
  | EvAttempt (resp : option Response) (err : option error)
  | EvSleep (d : Z).

(** How a run ends: the pair returned to the caller, a nil-pointer
    dereference of [resp.Status], or the model running out of fuel. *)
Inductive Outcome : Type :=
  | Returned (resp : option Response) (err : option error)
  | Panicked
  | OutOfFuel.

Definition isAttempt (ev : Event) : bool :=
  match ev with EvAttempt _ _ => true | EvSleep _ => false end.

Definition attempts (tr : list Event) : nat :=
  length (List.filter isAttempt tr).

Definition sleeps (tr : list Event) : list Z :=
  omap (fun ev => match ev with EvSleep d => Some d | _ => None end) tr.

Section Executor.

(** The attempt function is a closure over mutable state. *)
Context {St : Type}.
Variable cfg : RetryConfig.
Variable fn : St -> (option Response * option error) * St.

(** [err == nil && !r.shouldRetry(nil, resp.Status)]; [None] when
    [resp.Status] dereferences a nil [resp]. The right operand of [&&] is
    only evaluated when [err] is nil. *)
Definition isTerminalSuccess (resp : option Response) (err : option error)
  : option bool :=
  match err with
  | Some _ => Some false
  | None =>
      match resp with
      | None => None
      | Some r => Some (negb (shouldRetry None (Status r)))
      end
  end.

(** The local [shouldRetry] computed once the attempt was not the last. *)
Definition retryDecision (resp : option Response) (err : option error)
  : bool :=
  let shouldRetry0 := shouldRetry err 0 in
  match resp with
  | Some r => shouldRetry0 || shouldRetry None (Status r)
  | None => shouldRetry0
  end.

(** The code after the loop. *)
Definition afterLoop (lastResp : option Response) (lastErr : option error)
  : Outcome :=
  match lastErr with
  | Some e => Returned lastResp (Some e)
  | None => Returned lastResp (Some ErrMaxRetriesExceeded)
  end.

Definition prepend (evs : list Event) (r : Outcome * St * list Event)
  : Outcome * St * list Event :=
  let '(o, st, tr) := r in (o, st, evs ++ tr).

(** The [for attempt := 0; attempt <= maxRetries; attempt++] loop, one unit
    of fuel per evaluation of the loop condition. *)
Fixpoint loop (fuel : nat) (attempt : Z)
    (lastResp : option Response) (lastErr : option error) (st : St)
  : Outcome * St * list Event :=
  match fuel with
  | O => (OutOfFuel, st, [])
  | S fuel' =>
      if negb (attempt <=? MaxRetries cfg) then
        (afterLoop lastResp lastErr, st, [])
      else
        let '((resp, err), st1) := fn st in
        prepend [EvAttempt resp err]
          match isTerminalSuccess resp err with
          | None => (Panicked, st1, [])
          | Some true => (Returned resp None, st1, [])
          | Some false =>
              if attempt =? MaxRetries cfg then
                (afterLoop resp err, st1, [])
              else if negb (retryDecision resp err) then
                (afterLoop resp err, st1, [])
              else
                prepend [EvSleep (backoffDuration (BackoffMs cfg) attempt)]
                  (loop fuel' (Int64.add attempt 1) resp err st1)
          end
  end.

(** Enough fuel for every evaluation of the loop condition. *)
Definition fuelFor : nat := S (Z.to_nat (MaxRetries cfg + 1)).

Definition executeWithRetry (st : St) : Outcome * St * list Event :=
  loop fuelFor 0 None None st.


(** The attempt function never hands back the executor's own sentinel. *)
Definition NeverMaxRetriesExceeded : Prop :=
  forall s, (fn s).1.2 <> Some ErrMaxRetriesExceeded.

End Executor.

(** Attempt functions used as concrete inputs; their state counts calls. *)

(** A [*url.Error] around a timed-out dial, as [http.Client.Do] returns. *)
Definition timeoutErr : error :=
  ErrWrap (NetError true) (ErrLeaf (NetError true)).

(** A malformed request URL: no [Timeout] method anywhere. *)
Definition parseErr : error :=
  ErrWrap (Plain "parse") (ErrLeaf (Plain "missing protocol scheme")).

Definition respWith (status : Z) : Response :=
  mkResponse status EmptyString ∅ None.

Definition alwaysTimeout (calls : nat)
  : (option Response * option error) * nat :=
  ((None, Some timeoutErr), S calls).

Definition alwaysFails (e : error) (calls : nat)
  : (option Response * option error) * nat :=
  ((None, Some e), S calls).

Definition alwaysStatus (status : Z) (calls : nat)
  : (option Response * option error) * nat :=
  ((Some (respWith status), None), S calls).

End Retry.

(** ** Bytes that a string literal cannot spell *)

Definition dquote : string := String (ascii_of_N 34) EmptyString.
Definition CRLF : string :=
  String (ascii_of_N 13) (String (ascii_of_N 10) EmptyString).

(** ** OAuth1 signing (oauth1.go) *)

Module OAuth1.

Record OAuth1Config : Type := mkOAuth1Config {
  ConsumerKey : string;
  ConsumerSecret : string;
  AccessToken : string;
  AccessTokenSecret : string
}.

(** What [url.Parse] yields, as far as the signer reads it; [Query] is the
    result of [u.Query()], a [url.Values]. *)
Record URL : Type := mkURL {
  Scheme : string;
  Host : string;
  Path : string;
  Query : gmap string (list string)
}.

(** [net/url]'s [shouldEscape] in [encodeQueryComponent] mode: letters,
    digits and [-_.~] pass, every other byte is escaped. *)
Definition shouldEscape (c : ascii) : bool :=
  let n := N_of_ascii c in
  if ((97 <=? n) && (n <=? 122) || (65 <=? n) && (n <=? 90)
      || (48 <=? n) && (n <=? 57))%N then false
  else if bool_decide (c ∈ ["-"; "_"; "."; "~"]%char) then false
  else true.

Definition upperhex : string := "0123456789ABCDEF".

Definition hexDigit (n : N) : ascii :=
  default "0"%char (String.get (N.to_nat n) upperhex).

(** [url.QueryEscape]. *)
Fixpoint QueryEscape (s : string) : string :=
  match s with
  | EmptyString => EmptyString
  | String c rest =>
      if shouldEscape c then
        if Ascii.eqb c " " then String "+" (QueryEscape rest)
        else
          let n := N_of_ascii c in
          String "%" (String (hexDigit (N.shiftr n 4))
                        (String (hexDigit (N.land n 15)) (QueryEscape rest)))
      else String c (QueryEscape rest)
  end.

(** [strings.Join]. *)
Fixpoint Join (elems : list string) (sep : string) : string :=
  match elems with
  | [] => EmptyString
  | [x] => x
  | x :: rest => x +:+ sep +:+ Join rest sep
  end.

(** [sort.Strings]: ascending byte-wise order. *)
Definition sortStrings (l : list string) : list string :=
  merge_sort String.le l.

(** The order in which the runtime walks a map is unspecified and changes
    from one [range] statement to the next; a schedule fixes the order
    taken at each of the four [range] statements of the signer. *)
Record Schedule : Type := mkSchedule {
  rangeParams : gmap string string -> list (string * string);
  rangeQuery : gmap string (list string) -> list (string * list string);
  rangeAllParams : gmap string string -> list (string * string);
  rangeHeaderParams : gmap string string -> list (string * string)
}.

(** Each [range] visits every entry of its map exactly once. *)
Definition validSchedule (sch : Schedule) : Prop :=
  (forall m, rangeParams sch m ≡ₚ map_to_list m) /\
  (forall m, rangeQuery sch m ≡ₚ map_to_list m) /\
  (forall m, rangeAllParams sch m ≡ₚ map_to_list m) /\
  (forall m, rangeHeaderParams sch m ≡ₚ map_to_list m).

(** The schedule that walks every map in its canonical order, and the one
    that walks it backwards. *)
Definition forwardSchedule : Schedule :=
  mkSchedule map_to_list map_to_list map_to_list map_to_list.

Definition backwardSchedule : Schedule :=
  mkSchedule (fun m => reverse (map_to_list m))
             (fun m => reverse (map_to_list m))
             (fun m => reverse (map_to_list m))
             (fun m => reverse (map_to_list m)).

(** [allParams]: a copy of [params], then the first value of every query
    key written over it. *)
Definition copyParams (visited : list (string * string))
  : gmap string string :=
  foldl (fun all kv => <[kv.1 := kv.2]> all) ∅ visited.

Definition overlayQuery (all : gmap string string)
    (visited : list (string * list string)) : gmap string string :=
  foldl (fun all kvs =>
           match kvs.2 with
           | v :: _ => <[kvs.1 := v]> all
           | [] => all
           end) all visited.

Definition mergeParams (sch : Schedule) (params : gmap string string)
    (query : gmap string (list string)) : gmap string string :=
  overlayQuery (copyParams (rangeParams sch params)) (rangeQuery sch query).

(** [keys]: collected in iteration order, then sorted. *)
Definition sortedKeys (sch : Schedule) (allParams : gmap string string)
  : list string :=
  sortStrings
    (foldl (fun keys kv => keys ++ [kv.1]) [] (rangeAllParams sch allParams)).

(** One [key=value] element of [paramParts]; indexing a map at a missing key
    gives the empty string. *)
Definition paramPart (allParams : gmap string string) (key : string)
  : string :=
  QueryEscape key +:+ "=" +:+ QueryEscape (default EmptyString (allParams !! key)).

Definition paramString (sch : Schedule) (allParams : gmap string string)
  : string :=
  Join (paramPart allParams <$> sortedKeys sch allParams) "&".

Section Signer.

(** Collaborators from the standard library: [url.Parse], HMAC-SHA1 (key,
    then message) and [base64.StdEncoding.EncodeToString]. *)
Variable urlParse : string -> URL + error.
Variable hmacSHA1 : string -> string -> string.
Variable base64Encode : string -> string.

Definition generateOAuth1Signature (sch : Schedule) (oauth : OAuth1Config)
    (method fullURL : string) (params : gmap string string)
  : string + error :=
  match urlParse fullURL with
  | inr err => inr err
  | inl u =>
      let baseURL := Scheme u +:+ "://" +:+ Host u +:+ Path u in
      let allParams := mergeParams sch params (Query u) in
      let paramString := paramString sch allParams in
      let signatureBaseString :=
        QueryEscape method +:+ "&" +:+ QueryEscape baseURL +:+ "&"
          +:+ QueryEscape paramString in
      let signingKey :=
        QueryEscape (ConsumerSecret oauth) +:+ "&"
          +:+ QueryEscape (AccessTokenSecret oauth) in
      inl (base64Encode (hmacSHA1 signingKey signatureBaseString))
  end.

(** The six oauth parameters; [nonce] and [timestamp] are the two values
    drawn from the entropy source and the clock. *)
Definition oauthParams (oauth : OAuth1Config) (nonce timestamp : string)
  : gmap string string :=
  <["oauth_version" := "1.0"]>
  (<["oauth_token" := AccessToken oauth]>
  (<["oauth_timestamp" := timestamp]>
  (<["oauth_signature_method" := "HMAC-SHA1"]>
  (<["oauth_nonce" := nonce]>
  (<["oauth_consumer_key" := ConsumerKey oauth]> ∅))))).

Definition authPart (kv : string * string) : string :=
  kv.1 +:+ "=" +:+ dquote +:+ QueryEscape kv.2 +:+ dquote.

Definition generateOAuth1Header (sch : Schedule) (oauth : OAuth1Config)
    (nonce timestamp : string) (method fullURL : string) : string + error :=
  let params := oauthParams oauth nonce timestamp in
  match generateOAuth1Signature sch oauth method fullURL params with
  | inr err => inr err
  | inl signature =>
      let params := <["oauth_signature" := signature]> params in
      let authParts :=
        foldl (fun parts kv => parts ++ [authPart kv]) []
              (rangeHeaderParams sch params) in
      inl ("OAuth " +:+ Join (sortStrings authParts) ", ")
  end.

End Signer.



(** Concrete inputs for the examples below: a parser that knows one URL,
    and transparent stand-ins for the MAC and the encoder, which keep the
    key and the message readable in the result. *)
Definition exampleURL : string :=
  "https://api.example.com/items?id=1&id2=2&oauth_nonce=chosen".

Definition exampleQuery : gmap string (list string) :=
  <["id" := ["1"]]> (<["id2" := ["2"]]> (<["oauth_nonce" := ["chosen"]]> ∅)).

Definition exampleParse (fullURL : string) : URL + error :=
  if String.eqb fullURL exampleURL then
    inl (mkURL "https" "api.example.com" "/items" exampleQuery)
  else inr (ErrWrap (Plain "parse") (ErrLeaf (Plain "unknown URL"))).

Definition exampleMac (key msg : string) : string := key +:+ "|" +:+ msg.

Definition exampleEncode (bytes : string) : string := bytes.

Definition exampleConfig : OAuth1Config :=
  mkOAuth1Config "ck" "cs" "at" "ats".

End OAuth1.

(** ** Client and request builders (types.go, request_builder.go)

    A Go map is a reference: copying a struct field of map type copies the
    reference, not the entries. The maps live in a heap, and the builders
    run in a state monad over it; a write through a nil map panics. *)

Module Builder.

Definition loc : Type := positive.

Abbreviation Heap := (gmap loc (gmap string string)).

(** Computations over the heap of maps; [None] is a panic. *)
Definition M (A : Type) : Type := Heap -> option (A * Heap).

Definition ret {A} (a : A) : M A := fun h => Some (a, h).

Definition bind {A B} (m : M A) (k : A -> M B) : M B :=
  fun h => match m h with
           | Some (a, h') => k a h'
           | None => None
           end.

Local Notation "x <- m ;; k" := (bind m (fun x => k))
  (at level 100, m at next level, right associativity).

(** [make(map[string]string)]. *)
Definition makeMap : M (option loc) :=
  fun h => let l := fresh (dom h) in Some (Some l, <[l := ∅]> h).

(** [m[key] = value]. *)
Definition mapAssign (m : option loc) (key value : string) : M unit :=
  fun h =>
    match m with
    | None => None
    | Some l =>
        match h !! l with
        | Some entries => Some (tt, <[l := <[key := value]> entries]> h)
        | None => None
        end
    end.

(** The entries a [range] over [m] visits; none for a nil map. *)
Definition mapEntries (m : option loc) : M (gmap string string) :=
  fun h =>
    Some (match m with
          | Some l => default ∅ (h !! l)
          | None => ∅
          end, h).

Module ClientBuilder.
Record t : Type := mk {
  baseUrl : string;
  queryParams : option loc;
  headers : option loc;
  contentType : string
}.
End ClientBuilder.

Module Client.
Record t : Type := mk {
  baseUrl : string;
  queryParams : option loc;
  headers : option loc;
  contentType : string
}.
End Client.

Module RequestBuilder.
Record t : Type := mk {
  client : Client.t;
  method : string;
  path : string;
  queryParams : option loc;
  headers : option loc;
  contentType : string
}.
End RequestBuilder.

Definition MethodGet : string := "GET".
Definition ContentTypeJSON : string := "application/json; charset=UTF-8".

Definition NewClientBuilder : M ClientBuilder.t :=
  q <- makeMap ;;
  h <- makeMap ;;
  ret (ClientBuilder.mk EmptyString q h EmptyString).

Definition ClientBuilder_BaseUrl (baseUrl : string) (b : ClientBuilder.t)
  : M ClientBuilder.t :=
  ret (ClientBuilder.mk baseUrl (ClientBuilder.queryParams b)
         (ClientBuilder.headers b) (ClientBuilder.contentType b)).

Definition ClientBuilder_QueryParam (key value : string) (b : ClientBuilder.t)
  : M ClientBuilder.t :=
  _ <- mapAssign (ClientBuilder.queryParams b) key value ;; ret b.

Definition ClientBuilder_Header (key value : string) (b : ClientBuilder.t)
  : M ClientBuilder.t :=
  _ <- mapAssign (ClientBuilder.headers b) key value ;; ret b.

Definition Build (b : ClientBuilder.t) : M Client.t :=
  ret (Client.mk (ClientBuilder.baseUrl b) (ClientBuilder.queryParams b)
         (ClientBuilder.headers b) (ClientBuilder.contentType b)).

(** [queryParams: c.queryParams] copies the reference; [headers] is a map
    of the builder's own. *)
Definition NewRequestBuilder (c : Client.t) : M RequestBuilder.t :=
  h <- makeMap ;;
  ret (RequestBuilder.mk c MethodGet EmptyString (Client.queryParams c) h
         ContentTypeJSON).

Definition Method (method : string) (b : RequestBuilder.t)
  : M RequestBuilder.t :=
  ret (RequestBuilder.mk (RequestBuilder.client b) method
         (RequestBuilder.path b) (RequestBuilder.queryParams b)
         (RequestBuilder.headers b) (RequestBuilder.contentType b)).

Definition Path (path : string) (b : RequestBuilder.t) : M RequestBuilder.t :=
  ret (RequestBuilder.mk (RequestBuilder.client b) (RequestBuilder.method b)
         path (RequestBuilder.queryParams b)
         (RequestBuilder.headers b) (RequestBuilder.contentType b)).

Definition Get (path : string) (c : Client.t) : M RequestBuilder.t :=
  b <- NewRequestBuilder c ;;
  b <- Method MethodGet b ;;
  Path path b.

Definition QueryParam (key value : string) (b : RequestBuilder.t)
  : M RequestBuilder.t :=
  _ <- mapAssign (RequestBuilder.queryParams b) key value ;; ret b.

Definition Header (key value : string) (b : RequestBuilder.t)
  : M RequestBuilder.t :=
  _ <- mapAssign (RequestBuilder.headers b) key value ;; ret b.

(** What one attempt puts on the wire from the maps: the parameters
    [buildUrl] sets on the URL, and the headers [buildRequest] sets, the
    client's first and the request's own over them. *)
Record Sent : Type := mkSent {
  sentQuery : gmap string string;
  sentHeaders : gmap string string
}.

Definition buildUrl (b : RequestBuilder.t) : M (gmap string string) :=
  mapEntries (RequestBuilder.queryParams b).

Definition buildRequest (b : RequestBuilder.t) : M (gmap string string) :=
  defaults <- mapEntries (Client.headers (RequestBuilder.client b)) ;;
  own <- mapEntries (RequestBuilder.headers b) ;;
  ret (own ∪ defaults).

(** The map traffic of [Do]: every attempt rebuilds the URL and the
    request, and only reads the maps. *)
Definition Do (b : RequestBuilder.t) : M Sent :=
  q <- buildUrl b ;;
  h <- buildRequest b ;;
  ret (mkSent q h).

(** The client's default maps, as they stand in a heap. *)
Definition clientQueryParams (c : Client.t) (h : Heap) : gmap string string :=
  match Client.queryParams c with
  | Some l => default ∅ (h !! l)
  | None => ∅
  end.

Definition clientHeaders (c : Client.t) (h : Heap) : gmap string string :=
  match Client.headers c with
  | Some l => default ∅ (h !! l)
  | None => ∅
  end.

(** Per-request builder operations, and a request as the client hands out
    a builder and the caller chains operations on it. [Do] may come more
    than once; what each one sent is collected in order. *)
Inductive Op : Type :=
  | OpQueryParam (key value : string)
  | OpHeader (key value : string)
  | OpDo.

Definition isQueryParam (op : Op) : bool :=
  match op with OpQueryParam _ _ => true | _ => false end.

Fixpoint chainOps (ops : list Op) (b : RequestBuilder.t)
  : M (RequestBuilder.t * list Sent) :=
  match ops with
  | [] => ret (b, [])
  | OpQueryParam key value :: rest =>
      b <- QueryParam key value b ;; chainOps rest b
  | OpHeader key value :: rest =>
      b <- Header key value b ;; chainOps rest b
  | OpDo :: rest =>
      sent <- Do b ;;
      r <- chainOps rest b ;;
      ret (r.1, sent :: r.2)
  end.

Definition request (path : string) (ops : list Op) (c : Client.t)
  : M (list Sent) :=
  b <- Get path c ;;
  r <- chainOps ops b ;;
  ret r.2.

(** The maps of a client are allocated. *)
Definition clientAllocated (c : Client.t) (h : Heap) : Prop :=
  (exists l, Client.queryParams c = Some l /\ is_Some (h !! l)) /\
  (exists l, Client.headers c = Some l /\ is_Some (h !! l)).

(** A client with the default [k=1]. *)
Definition buildClient : M Client.t :=
  b <- NewClientBuilder ;;
  b <- ClientBuilder_BaseUrl "https://api.example.com" b ;;
  b <- ClientBuilder_QueryParam "k" "1" b ;;
  Build b.

(** One request that sets [k=2] and a header for itself and is sent, then
    a second, plain request on the same client. *)
Definition twoRequests
  : M (gmap string string * list Sent * gmap string string * list Sent) :=
  c <- buildClient ;;
  before <- mapEntries (Client.queryParams c) ;;
  first <- request "/items"
             [OpQueryParam "k" "2"; OpHeader "X-Request-ID" "abc123"; OpDo] c ;;
  after <- mapEntries (Client.queryParams c) ;;
  second <- request "/items" [OpDo] c ;;
  ret (before, first, after, second).

End Builder.

(** ** Multipart encoding (multipart.go, over mime/multipart) *)

Module Multipart.

(** An [io.Reader]: the bytes it yields, then end of file or a failure. *)
Record ioReader : Type := mkReader {
  content : string;
  failure : option error
}.

Record FormField : Type := mkFormField {
  Name : string;
  Value : string
}.

(** [Data] and [Reader] are nil ([None]) or set, independently. *)
Record FormFile : Type := mkFormFile {
  FieldName : string;
  FileName : string;
  Data : option string;
  Reader : option ioReader
}.

Record MultipartFormData : Type := mkMultipartFormData {
  Fields : list FormField;
  Files : list FormFile
}.

(** [multipart.Writer] over the write end of the pipe: the bytes written so
    far and whether a part has been opened. The read end is drained to the
    end by the transport, so a write never fails. *)
Record Writer : Type := mkWriter {
  boundary : string;
  written : string;
  lastpart : bool
}.

Definition NewWriter (boundary : string) : Writer :=
  mkWriter boundary EmptyString false.

Definition write (bytes : string) (w : Writer) : Writer :=
  mkWriter (boundary w) (written w +:+ bytes) (lastpart w).

(** [escapeQuotes]: a backslash before every backslash and quote. *)
Fixpoint escapeQuotes (s : string) : string :=
  match s with
  | EmptyString => EmptyString
  | String c rest =>
      if Ascii.eqb c "\" || Ascii.eqb c (ascii_of_N 34)
      then String "\" (String c (escapeQuotes rest))
      else String c (escapeQuotes rest)
  end.

Definition headerLine (kv : string * string) : string :=
  kv.1 +:+ ": " +:+ kv.2 +:+ CRLF.

Definition concatStrings (l : list string) : string :=
  foldr String.append EmptyString l.

(** [CreatePart]: the delimiter line, the header lines in key order, an
    empty line. [header] is given sorted by key. *)
Definition CreatePart (header : list (string * string)) (w : Writer) : Writer :=
  let delimiter :=
    if lastpart w then CRLF +:+ "--" +:+ boundary w +:+ CRLF
    else "--" +:+ boundary w +:+ CRLF in
  mkWriter (boundary w)
    (written w +:+ delimiter +:+ concatStrings (headerLine <$> header) +:+ CRLF)
    true.

Definition fieldHeader (fieldname : string) : list (string * string) :=
  [("Content-Disposition",
    "form-data; name=" +:+ dquote +:+ escapeQuotes fieldname +:+ dquote)].

Definition fileHeader (fieldname filename : string)
  : list (string * string) :=
  [("Content-Disposition",
    "form-data; name=" +:+ dquote +:+ escapeQuotes fieldname +:+ dquote
      +:+ "; filename=" +:+ dquote +:+ escapeQuotes filename +:+ dquote);
   ("Content-Type", "application/octet-stream")].

Definition CreateFormField (fieldname : string) : Writer -> Writer :=
  CreatePart (fieldHeader fieldname).

Definition CreateFormFile (fieldname filename : string) : Writer -> Writer :=
  CreatePart (fileHeader fieldname filename).

Definition WriteField (fieldname value : string) (w : Writer) : Writer :=
  write value (CreateFormField fieldname w).

(** [Writer.Close]: the closing delimiter. *)
Definition Close (w : Writer) : Writer :=
  write (CRLF +:+ "--" +:+ boundary w +:+ "--" +:+ CRLF) w.

Definition FormDataContentType (w : Writer) : string :=
  "multipart/form-data; boundary=" +:+ boundary w.

(** The body of one file part:
    [if file.Reader != nil { io.Copy } else if file.Data != nil { Write }]. *)
Definition copyBody (file : FormFile) (part : Writer)
  : Writer * option error :=
  match Reader file with
  | Some r => (write (content r) part, failure r)
  | None =>
      match Data file with
      | Some data => (write data part, None)
      | None => (part, None)
      end
  end.

Definition writeFields (fields : list FormField) (w : Writer) : Writer :=
  foldl (fun w field => WriteField (Name field) (Value field) w) w fields.

(** The loop over the files stops at the first failure. *)
Fixpoint writeFiles (files : list FormFile) (w : Writer)
  : Writer * option error :=
  match files with
  | [] => (w, None)
  | file :: rest =>
      let part := CreateFormFile (FieldName file) (FileName file) w in
      let '(w', writeErr) := copyBody file part in
      match writeErr with
      | Some e => (w', Some e)
      | None => writeFiles rest w'
      end
  end.

(** What the read end of the pipe delivers: the bytes, then end of file
    ([Close]) or the writer's error ([CloseWithError]). *)
Record Stream : Type := mkStream {
  bytes : string;
  closedWith : option error
}.

(** [boundary] is the token the writer draws at random. *)
Definition buildMultipartForm (boundary : string)
    (formData : MultipartFormData) : Stream * string :=
  let writer := NewWriter boundary in
  let contentType := FormDataContentType writer in
  let w1 := writeFields (Fields formData) writer in
  let '(w2, writeErr) := writeFiles (Files formData) w1 in
  match writeErr with
  | Some e => (mkStream (written w2) (Some e), contentType)
  | None => (mkStream (written (Close w2)) None, contentType)
  end.

(** *** The parts of a plan, in the order the specification gives *)

Record Part : Type := mkPart {
  header : list (string * string);
  body : string
}.

Definition fieldPart (field : FormField) : Part :=
  mkPart (fieldHeader (Name field)) (Value field).

Definition fileBody (file : FormFile) : string :=
  match Reader file with
  | Some r => content r
  | None => default EmptyString (Data file)
  end.

Definition filePart (file : FormFile) : Part :=
  mkPart (fileHeader (FieldName file) (FileName file)) (fileBody file).

Definition planParts (formData : MultipartFormData) : list Part :=
  (fieldPart <$> Fields formData) ++ (filePart <$> Files formData).

(** One part on the wire, after its delimiter line. *)
Definition renderPart (p : Part) : string :=
  concatStrings (headerLine <$> header p) +:+ CRLF +:+ body p.

(** The delimiter line before a part; the very first one has no line
    break in front. *)
Definition delimiterLine (started : bool) (boundary : string) : string :=
  if started then CRLF +:+ "--" +:+ boundary +:+ CRLF
  else "--" +:+ boundary +:+ CRLF.

(** A sequence of parts on the wire, each after its delimiter line. *)
Fixpoint renderFrom (started : bool) (boundary : string) (parts : list Part)
  : string :=
  match parts with
  | [] => EmptyString
  | p :: rest =>
      delimiterLine started boundary +:+ renderPart p
        +:+ renderFrom true boundary rest
  end.

Definition renderParts (boundary : string) (parts : list Part) : string :=
  renderFrom false boundary parts.

(** Whether a part has been opened once [parts] have been written. *)
Definition startedAfter (started : bool) (parts : list Part) : bool :=
  match parts with [] => started | _ => true end.

Definition closeDelimiter (boundary : string) : string :=
  CRLF +:+ "--" +:+ boundary +:+ "--" +:+ CRLF.

Definition readersSucceed (files : list FormFile) : Prop :=
  Forall (fun file => forall r, Reader file = Some r -> failure r = None) files.

(** The files the loop gets to: up to and including the first whose
    reader fails; and that failure. *)
Definition readFailure (file : FormFile) : option error :=
  match Reader file with
  | Some r => failure r
  | None => None
  end.

Fixpoint reached (files : list FormFile) : list FormFile :=
  match files with
  | [] => []
  | file :: rest =>
      file :: match readFailure file with
              | Some _ => []
              | None => reached rest
              end
  end.

Fixpoint firstFailure (files : list FormFile) : option error :=
  match files with
  | [] => None
  | file :: rest =>
      match readFailure file with
      | Some e => Some e
      | None => firstFailure rest
      end
  end.

(** [file] with its buffer dropped. *)
Definition withoutData (file : FormFile) : FormFile :=
  mkFormFile (FieldName file) (FileName file) None (Reader file).

(** *** A reader for the format, after RFC 2046 and [multipart.Reader]

    It expects the stream to open with a delimiter line, reads the header
    lines of each part up to the empty line, takes as body everything up
    to the next line break followed by a delimiter, and stops at the
    closing delimiter. *)

(** [s] cut at the first occurrence of [sep]. *)
Definition cutAt (sep s : string) : option (string * string) :=
  match String.index 0 sep s with
  | Some n =>
      Some (String.substring 0 n s,
            String.substring (n + String.length sep)
              (String.length s - n - String.length sep) s)
  | None => None
  end.

Definition dropPrefix (pre s : string) : option string :=
  if String.prefix pre s then
    Some (String.substring (String.length pre)
            (String.length s - String.length pre) s)
  else None.

(** A quoted string up to its closing quote, backslash escapes undone. *)
Fixpoint readQuoted (s : string) : option string :=
  match s with
  | EmptyString => None
  | String c rest =>
      if Ascii.eqb c (ascii_of_N 34) then Some EmptyString
      else if Ascii.eqb c "\" then
        match rest with
        | EmptyString => None
        | String d rest' => String d <$> readQuoted rest'
        end
      else String c <$> readQuoted rest
  end.

(** The quoted value of parameter [key] in a [Content-Disposition]. *)
Definition dispositionParam (key disposition : string) : option string :=
  match cutAt ("; " +:+ key +:+ "=" +:+ dquote) disposition with
  | Some (_, after) => readQuoted after
  | None => None
  end.

Fixpoint readHeader (fuel : nat) (s : string)
  : option (list (string * string) * string) :=
  match fuel with
  | O => None
  | S fuel' =>
      match dropPrefix CRLF s with
      | Some rest => Some ([], rest)
      | None =>
          match cutAt CRLF s with
          | None => None
          | Some (line, rest) =>
              match cutAt ": " line, readHeader fuel' rest with
              | Some kv, Some (kvs, rest') => Some (kv :: kvs, rest')
              | _, _ => None
              end
          end
      end
  end.

(** What [multipart.Part] exposes: [FormName()], [FileName()] (present for
    file parts only) and the body. *)
Record Decoded : Type := mkDecoded {
  formName : string;
  fileName : option string;
  partBody : string
}.

Definition lookupHeader (key : string) (hdr : list (string * string))
  : option string :=
  snd <$> List.find (fun kv => String.eqb kv.1 key) hdr.

(** [s] starts right after a delimiter. *)
Fixpoint readParts (fuel : nat) (boundary s : string)
  : option (list Decoded) :=
  match fuel with
  | O => None
  | S fuel' =>
      if String.prefix "--" s then Some []
      else
        match dropPrefix CRLF s with
        | None => None
        | Some afterLine =>
            match readHeader (String.length afterLine) afterLine with
            | None => None
            | Some (hdr, afterHeader) =>
                match cutAt (CRLF +:+ "--" +:+ boundary) afterHeader,
                      lookupHeader "Content-Disposition" hdr with
                | Some (partBody, rest), Some disposition =>
                    match dispositionParam "name" disposition,
                          readParts fuel' boundary rest with
                    | Some name, Some parts =>
                        Some (mkDecoded name
                                (dispositionParam "filename" disposition)
                                partBody :: parts)
                    | _, _ => None
                    end
                | _, _ => None
                end
            end
        end
  end.

Definition parseMultipart (boundary stream : string)
  : option (list Decoded) :=
  match dropPrefix ("--" +:+ boundary) stream with
  | Some rest => readParts (String.length stream) boundary rest
  | None => None
  end.

(** A boundary of the shape the writer draws: sixty hexadecimal digits. *)
Definition exampleBoundary : string :=
  "3f1c9a0b7d2e4f60815a9c3b7e1d2f4a6b8c0d1e2f3a4b5c6d7e8f9a0b1c".

(** The plan of the round-trip example, and a file that has both a buffer
    and a reader. *)
Definition examplePlan : MultipartFormData :=
  mkMultipartFormData [mkFormField "a" "1"]
    [mkFormFile "f" "f" (Some "hello") None].

Definition bothSources : FormFile :=
  mkFormFile "f" "f.bin" (Some "from the buffer")
    (Some (mkReader "from the reader" None)).

End Multipart.

(** ** Whole runs of the retry loop *)

Module RetryRuns.

Import Retry.

(** The shape of a trace: attempts, with one sleep between any two. *)
Inductive Alternating : list Event -> Prop :=
  | alt_last resp err : Alternating [EvAttempt resp err]
  | alt_more resp err d tr :
      Alternating tr -> Alternating (EvAttempt resp err :: EvSleep d :: tr).

(** The time a run spends in [time.Sleep], in nanoseconds. *)
Definition totalSleep (tr : list Event) : Z := foldr Z.add 0 (sleeps tr).

Section Calls.

Context {St : Type}.
Variable fn : St -> (option Response * option error) * St.

(** The state of the closure after [k] calls, and what the next call
    returns. *)
Fixpoint stateAfter (k : nat) (st : St) : St :=
  match k with
  | O => st
  | S k' => stateAfter k' (fn st).2
  end.

Definition outcomeAt (k : nat) (st : St) : option Response * option error :=
  (fn (stateAfter k st)).1.

(** What makes the loop go round again after an attempt that was not the
    last: the attempt was no terminal success and the local [shouldRetry]
    came out true. *)
Definition goesOn (o : option Response * option error) : Prop :=
  isTerminalSuccess o.1 o.2 = Some false /\ retryDecision o.1 o.2 = true.

(** The events of [k] rounds of attempt and sleep, the first one with
    attempt index [attempt] and base backoff [backoffMs]. *)
Fixpoint rounds (backoffMs : Z) (k : nat) (attempt : Z) (st : St)
  : list Event :=
  match k with
  | O => []
  | S k' =>
      EvAttempt (fn st).1.1 (fn st).1.2
        :: EvSleep (backoffDuration backoffMs attempt)
        :: rounds backoffMs k' (attempt + 1) (fn st).2
  end.

End Calls.

(** A server that answers 503 to the first [failures] calls and 200 from
    then on. *)
Definition flaky (failures calls : nat)
  : (option Response * option error) * nat :=
  if (calls <? failures)%nat then ((Some (respWith 503), None), S calls)
  else ((Some (respWith 200), None), S calls).

(** An attempt that comes back with neither a response nor an error. *)
Definition nothingAtAll (calls : nat)
  : (option Response * option error) * nat :=
  ((None, None), S calls).

(** An attempt that comes back with a 503 response and a parse error at
    once. *)
Definition bothAtOnce (calls : nat)
  : (option Response * option error) * nat :=
  ((Some (respWith 503), Some parseErr), S calls).

End RetryRuns.

(** ** Decoding of query components (net/url, behind [u.Query()]) *)

Module Unescape.

Import OAuth1.

(** [ishex] and [unhex] of net/url. *)
Definition ishex (c : ascii) : bool :=
  let n := N_of_ascii c in
  ((48 <=? n) && (n <=? 57) || (97 <=? n) && (n <=? 102)
   || (65 <=? n) && (n <=? 70))%N.

Definition unhex (c : ascii) : N :=
  let n := N_of_ascii c in
  (if (48 <=? n) && (n <=? 57) then n - 48
   else if (97 <=? n) && (n <=? 102) then n - 97 + 10
   else if (65 <=? n) && (n <=? 70) then n - 65 + 10
   else 0)%N.

(** [url.QueryUnescape]: a percent sign takes the next two hexadecimal
    digits as one byte, a plus sign is a space; [None] is the
    [EscapeError] returned for a percent sign without two hexadecimal
    digits after it. *)
Fixpoint QueryUnescape (s : string) : option string :=
  match s with
  | EmptyString => Some EmptyString
  | String c rest =>
      if Ascii.eqb c "%" then
        match rest with
        | String h1 (String h2 rest') =>
            if ishex h1 && ishex h2 then
              String (ascii_of_N (N.lor (N.shiftl (unhex h1) 4) (unhex h2)))
                <$> QueryUnescape rest'
            else None
        | _ => None
        end
      else if Ascii.eqb c "+" then String " " <$> QueryUnescape rest
      else String c <$> QueryUnescape rest
  end.

(** The bytes [url.QueryEscape] can put out: the unreserved ones, the plus
    sign and the percent sign. *)
Definition isQuerySafe (c : ascii) : bool :=
  negb (shouldEscape c) || Ascii.eqb c "+" || Ascii.eqb c "%".

End Unescape.

(** ** One attempt and the three ways to send (request_builder.go)

    An attempt only reads the maps of the client and of the builder; they
    stand here by value, as the attempt finds them. How they are shared is
    the subject of [Builder]. *)

Module Exec.

Import OAuth1 Multipart Retry.

Definition ContentTypeFormUrlencoded : string :=
  "application/x-www-form-urlencoded".
Definition ContentTypeJSON : string := "application/json; charset=UTF-8".
Definition ContentTypeMultipartForm : string := "multipart/form-data".

(** The dynamic type of [body any], as the type switch tells them apart;
    [BodyOther] is any value of another type, named by a description. *)
Inductive Body : Type :=
  | BodyNil
  | BodyReader (r : ioReader)
  | BodyBytes (b : string)
  | BodyString (s : string)
  | BodyValues (form : gmap string (list string))
  | BodyFormData (formData : MultipartFormData)
  | BodyOther (description : string).

Definition isNil (body : Body) : bool :=
  match body with BodyNil => true | _ => false end.

Module Client.
Record t : Type := mk {
  baseUrl : string;
  queryParams : gmap string string;
  headers : gmap string string;
  contentType : string;
  oauth1 : option OAuth1Config;
  retryConfig : RetryConfig
}.
End Client.

Module RequestBuilder.
Record t : Type := mk {
  client : Client.t;
  method : string;
  path : string;
  queryParams : gmap string string;
  headers : gmap string string;
  contentType : string;
  body : Body
}.
End RequestBuilder.

Definition withContentType (contentType : string) (b : RequestBuilder.t)
  : RequestBuilder.t :=
  RequestBuilder.mk (RequestBuilder.client b) (RequestBuilder.method b)
    (RequestBuilder.path b) (RequestBuilder.queryParams b)
    (RequestBuilder.headers b) contentType (RequestBuilder.body b).

Definition withBody (body : Body) (b : RequestBuilder.t) : RequestBuilder.t :=
  RequestBuilder.mk (RequestBuilder.client b) (RequestBuilder.method b)
    (RequestBuilder.path b) (RequestBuilder.queryParams b)
    (RequestBuilder.headers b) (RequestBuilder.contentType b) body.

(** *** The fluent surface *)

Definition NewRequestBuilder (c : Client.t) : RequestBuilder.t :=
  RequestBuilder.mk c "GET" EmptyString (Client.queryParams c) ∅
    ContentTypeJSON BodyNil.

Inductive Call : Type :=
  | CallMethod (method : string)
  | CallPath (path : string)
  | CallQueryParam (key value : string)
  | CallHeader (key value : string)
  | CallBody (body : Body)
  | CallJsonContentType
  | CallFormUrlencodedContentType
  | CallMultipartFormContentType.

Definition call (b : RequestBuilder.t) (c : Call) : RequestBuilder.t :=
  match c with
  | CallMethod method =>
      RequestBuilder.mk (RequestBuilder.client b) method
        (RequestBuilder.path b) (RequestBuilder.queryParams b)
        (RequestBuilder.headers b) (RequestBuilder.contentType b)
        (RequestBuilder.body b)
  | CallPath path =>
      RequestBuilder.mk (RequestBuilder.client b) (RequestBuilder.method b)
        path (RequestBuilder.queryParams b)
        (RequestBuilder.headers b) (RequestBuilder.contentType b)
        (RequestBuilder.body b)
  | CallQueryParam key value =>
      RequestBuilder.mk (RequestBuilder.client b) (RequestBuilder.method b)
        (RequestBuilder.path b) (<[key := value]> (RequestBuilder.queryParams b))
        (RequestBuilder.headers b) (RequestBuilder.contentType b)
        (RequestBuilder.body b)
  | CallHeader key value =>
      RequestBuilder.mk (RequestBuilder.client b) (RequestBuilder.method b)
        (RequestBuilder.path b) (RequestBuilder.queryParams b)
        (<[key := value]> (RequestBuilder.headers b))
        (RequestBuilder.contentType b) (RequestBuilder.body b)
  | CallBody body => withBody body b
  | CallJsonContentType => withContentType ContentTypeJSON b
  | CallFormUrlencodedContentType =>
      withContentType ContentTypeFormUrlencoded b
  | CallMultipartFormContentType =>
      withContentType ContentTypeMultipartForm b
  end.

(** A builder as a caller can have it: fresh from the client, then any
    chain of calls. *)
Definition chained (c : Client.t) (calls : list Call) : RequestBuilder.t :=
  foldl call (NewRequestBuilder c) calls.

(** [MultipartFormBuilder.Do] hands the form over before sending. *)
Definition withForm (formData : MultipartFormData) (b : RequestBuilder.t)
  : RequestBuilder.t :=
  withBody (BodyFormData formData) (withContentType ContentTypeMultipartForm b).

(** A body that is no reader, byte slice or string, and not of the type
    the content type asks for: anything but [url.Values] for a form,
    anything but a [*MultipartFormData] for multipart. *)
Definition wrongBodyFor (contentType : string) (body : Body) : bool :=
  match body with
  | BodyOther _ =>
      String.eqb contentType ContentTypeFormUrlencoded
      || String.eqb contentType ContentTypeMultipartForm
  | BodyFormData _ => String.eqb contentType ContentTypeFormUrlencoded
  | BodyValues _ => String.eqb contentType ContentTypeMultipartForm
  | _ => false
  end.

(** *** [url.Values] *)

Definition Values_Set (key value : string) (v : gmap string (list string))
  : gmap string (list string) :=
  <[key := [value]]> v.

(** [Values.Encode]: the pairs by ascending key, the values of one key in
    their order. *)
Definition Values_pairs (v : gmap string (list string)) : list string :=
  flat_map
    (fun k =>
       (fun x => QueryEscape k +:+ "=" +:+ QueryEscape x)
         <$> default [] (v !! k))
    (sortStrings (map_to_list v).*1).

Definition Values_Encode (v : gmap string (list string)) : string :=
  Join (Values_pairs v) "&".

(** *** What is sent *)

Inductive ReqBody : Type :=
  | FromReader (r : ioReader)
  | FromBuffer (bytes : string)
  | FromPipe (stream : Stream).

Record Request : Type := mkRequest {
  reqMethod : string;
  reqURL : string;
  reqBody : option ReqBody;
  reqHeader : gmap string string
}.

(** What the transport hands back: status, headers, and what reading the
    body to its end gives. *)
Record HttpResponse : Type := mkHttpResponse {
  StatusCode : Z;
  Header : gmap string (list string);
  bodyBytes : string;
  readError : option error
}.

(** The values one attempt draws: nonce and timestamp of the signer, the
    boundary of the multipart writer. *)
Record Draw : Type := mkDraw {
  nonce : string;
  timestamp : string;
  boundary : string
}.

(** The order of the three [range] statements over the maps of the
    builder and of the client. *)
Record Visits : Type := mkVisits {
  visitQueryParams : gmap string string -> list (string * string);
  visitClientHeaders : gmap string string -> list (string * string);
  visitHeaders : gmap string string -> list (string * string)
}.

Definition validVisits (vis : Visits) : Prop :=
  (forall m, visitQueryParams vis m ≡ₚ map_to_list m) /\
  (forall m, visitClientHeaders vis m ≡ₚ map_to_list m) /\
  (forall m, visitHeaders vis m ≡ₚ map_to_list m).

Definition forwardVisits : Visits :=
  mkVisits map_to_list map_to_list map_to_list.

Definition backwardVisits : Visits :=
  mkVisits (fun m => reverse (map_to_list m))
           (fun m => reverse (map_to_list m))
           (fun m => reverse (map_to_list m)).

(** The state the attempts share: the builder, the transport, the number
    of attempts made, and the calls of [json.Unmarshal] so far (on the
    success target or not, with the bytes). *)
Record DoState (T : Type) : Type := mkDoState {
  builder : RequestBuilder.t;
  transportState : T;
  made : nat;
  unmarshalled : list (bool * string)
}.

Arguments mkDoState {T}.
Arguments builder {T}.
Arguments transportState {T}.
Arguments made {T}.
Arguments unmarshalled {T}.

Section Attempt.

(** Collaborators: [url.Parse], [u.String()] of a URL whose [RawQuery] has
    been replaced, HMAC-SHA1, base64, [json.Marshal],
    [http.NewRequestWithContext] (its error, if any, for a method and a
    URL) and the canonical form [http.Header.Set] gives a key. *)
Variable urlParse : string -> URL + error.
Variable urlString : URL -> string -> string.
Variable hmacSHA1 : string -> string -> string.
Variable base64Encode : string -> string.
Variable jsonMarshal : Body -> string + error.
Variable newRequestError : string -> string -> option error.
Variable canonicalKey : string -> string.

Variable sch : Schedule.
Variable vis : Visits.

(** [q] after the loop of [q.Set(k, v)]. *)
Definition finalQuery (b : RequestBuilder.t) (u : URL)
  : gmap string (list string) :=
  foldl (fun q kv => Values_Set kv.1 kv.2 q) (Query u)
    (visitQueryParams vis (RequestBuilder.queryParams b)).

Definition urlOf (b : RequestBuilder.t) (u : URL) : string :=
  urlString u (Values_Encode (finalQuery b u)).

(** [buildUrl]; the error of [url.Parse] is dropped, and [u.Query()] on
    the nil URL of a failed parse panics ([None]). *)
Definition buildUrl (b : RequestBuilder.t) : option string :=
  match urlParse (Client.baseUrl (RequestBuilder.client b)
                    +:+ RequestBuilder.path b) with
  | inr _ => None
  | inl u => Some (urlOf b u)
  end.

(** The first half of [buildRequest]: [buf], and the builder with the
    content type the multipart writer announced. *)
Definition requestBody (draw : Draw) (b : RequestBuilder.t)
  : (option ReqBody + error) * RequestBuilder.t :=
  match RequestBuilder.body b with
  | BodyNil => (inl None, b)
  | BodyReader r => (inl (Some (FromReader r)), b)
  | BodyBytes bytes => (inl (Some (FromBuffer bytes)), b)
  | BodyString s => (inl (Some (FromBuffer s)), b)
  | body =>
      if String.eqb (RequestBuilder.contentType b) ContentTypeJSON then
        match jsonMarshal body with
        | inr err => (inr err, b)
        | inl j => (inl (Some (FromBuffer j)), b)
        end
      else if String.eqb (RequestBuilder.contentType b)
                ContentTypeFormUrlencoded then
        match body with
        | BodyValues form => (inl (Some (FromBuffer (Values_Encode form))), b)
        | _ => (inr ErrInvalidBody, b)
        end
      else if String.eqb (RequestBuilder.contentType b)
                ContentTypeMultipartForm then
        match body with
        | BodyFormData formData =>
            let '(stream, contentType) :=
              buildMultipartForm (boundary draw) formData in
            (inl (Some (FromPipe stream)), withContentType contentType b)
        | _ => (inr ErrInvalidBody, b)
        end
      else (inl None, b)
  end.

Definition Header_Set (key value : string) (h : gmap string string)
  : gmap string string :=
  <[canonicalKey key := value]> h.

Definition setAll (visited : list (string * string)) (h : gmap string string)
  : gmap string string :=
  foldl (fun h kv => Header_Set kv.1 kv.2 h) h visited.

(** The last step of [buildRequest]: the two [Content-Type] writes. *)
Definition setContentType (b : RequestBuilder.t) (h : gmap string string)
  : gmap string string :=
  if isNil (RequestBuilder.body b) then h
  else
    let h1 :=
      if String.eqb (Client.contentType (RequestBuilder.client b)) EmptyString
      then h
      else Header_Set "Content-Type"
             (Client.contentType (RequestBuilder.client b)) h in
    if String.eqb (RequestBuilder.contentType b) EmptyString then h1
    else Header_Set "Content-Type" (RequestBuilder.contentType b) h1.

Definition buildRequest (draw : Draw) (fullURL : string)
    (b : RequestBuilder.t) : (Request + error) * RequestBuilder.t :=
  let '(buf, b) := requestBody draw b in
  match buf with
  | inr err => (inr err, b)
  | inl buf =>
      match newRequestError (RequestBuilder.method b) fullURL with
      | Some err => (inr err, b)
      | None =>
          let signed :=
            match Client.oauth1 (RequestBuilder.client b) with
            | None => inl ∅
            | Some oauth =>
                match generateOAuth1Header urlParse hmacSHA1 base64Encode
                        sch oauth (nonce draw) (timestamp draw)
                        (RequestBuilder.method b) fullURL with
                | inr err => inr err
                | inl authHeader => inl (Header_Set "Authorization" authHeader ∅)
                end
            end in
          match signed with
          | inr err => (inr err, b)
          | inl h0 =>
              let h1 :=
                setAll (visitClientHeaders vis
                          (Client.headers (RequestBuilder.client b))) h0 in
              let h2 :=
                setAll (visitHeaders vis (RequestBuilder.headers b)) h1 in
              (inl (mkRequest (RequestBuilder.method b) fullURL buf
                      (setContentType b h2)), b)
          end
      end
  end.

(** *** [Do], [DoRaw], [DoStream] *)

Inductive Mode : Type :=
  | ModeDo (successTarget errorTarget : bool)
  | ModeRaw
  | ModeStream.

Section Sending.

Context {T : Type}.
Variable transport : Request -> T -> (HttpResponse + error) * T.
Variable draws : nat -> Draw.
Variable mode : Mode.

(** The closure handed to [executeWithRetry], for a base URL that
    parsed to [u]. *)
Definition attempt (u : URL) (s : DoState T)
  : (option Response * option error) * DoState T :=
  let url := urlOf (builder s) u in
  let '(req, b) := buildRequest (draws (made s)) url (builder s) in
  match req with
  | inr err =>
      ((None, Some err),
       mkDoState b (transportState s) (S (made s)) (unmarshalled s))
  | inl req =>
      let '(resp, ts) := transport req (transportState s) in
      match resp with
      | inr err =>
          ((None, Some err), mkDoState b ts (S (made s)) (unmarshalled s))
      | inl resp =>
          match mode with
          | ModeStream =>
              ((Some (mkResponse (StatusCode resp) EmptyString (Header resp)
                        (Some (bodyBytes resp))), None),
               mkDoState b ts (S (made s)) (unmarshalled s))
          | _ =>
              match readError resp with
              | Some err =>
                  ((None, Some err),
                   mkDoState b ts (S (made s)) (unmarshalled s))
              | None =>
                  let response :=
                    mkResponse (StatusCode resp) (bodyBytes resp)
                      (Header resp) None in
                  let log :=
                    match mode with
                    | ModeDo successTarget errorTarget =>
                        if IsSuccess response then
                          if successTarget
                          then unmarshalled s ++ [(true, bodyBytes resp)]
                          else unmarshalled s
                        else
                          if errorTarget
                          then unmarshalled s ++ [(false, bodyBytes resp)]
                          else unmarshalled s
                    | _ => unmarshalled s
                    end in
                  ((Some response, None), mkDoState b ts (S (made s)) log)
              end
          end
      end
  end.

(** Sending: the retry loop around the attempt. [url.Parse] sees the same
    base URL and path at every attempt; when it fails, the first attempt
    panics in [buildUrl]. *)
Definition send (b : RequestBuilder.t) (ts : T)
  : Outcome * DoState T * list Event :=
  match urlParse (Client.baseUrl (RequestBuilder.client b)
                    +:+ RequestBuilder.path b) with
  | inr _ => (Panicked, mkDoState b ts O [], [])
  | inl u =>
      executeWithRetry (Client.retryConfig (RequestBuilder.client b))
        (attempt u) (mkDoState b ts O [])
  end.

End Sending.

End Attempt.

(** Concrete inputs for the examples: a client with OAuth1 and an
    [Authorization] header of its own, collaborators that accept
    everything, and a transport that answers 503 twice and then 200. *)
Definition exampleClient : Client.t :=
  Client.mk "https://api.example.com"
    (<["k" := "1"]> ∅)
    (<["Authorization" := "Bearer t"]> (<["X-Trace" := "on"]> ∅))
    ContentTypeFormUrlencoded (Some exampleConfig) (mkRetryConfig 3 1000).

Definition exampleParseAny (fullURL : string) : URL + error :=
  inl (mkURL "https" "api.example.com" "/items" (<["page" := ["7"]]> ∅)).

Definition exampleUrlString (u : URL) (rawQuery : string) : string :=
  Scheme u +:+ "://" +:+ Host u +:+ Path u +:+ "?" +:+ rawQuery.

Definition exampleMarshal (body : Body) : string + error :=
  match body with
  | BodyOther description => inl description
  | _ => inl "{}"
  end.

Definition exampleNewRequestError (method fullURL : string) : option error :=
  None.

Definition exampleCanonicalKey (key : string) : string := key.

Definition exampleDraws (i : nat) : Draw :=
  mkDraw "drawn" "1700000000" exampleBoundary.

Definition exampleRequest : RequestBuilder.t :=
  chained exampleClient
    [CallPath "/items"; CallQueryParam "page" "2"; CallHeader "X-Trace" "off";
     CallHeader "Content-Type" "text/plain"; CallBody (BodyString "x")].

Definition exampleFormRequest : RequestBuilder.t :=
  chained exampleClient
    [CallPath "/upload"; CallMultipartFormContentType;
     CallBody (BodyFormData examplePlan)].

Definition exampleWrongRequest : RequestBuilder.t :=
  chained exampleClient
    [CallFormUrlencodedContentType; CallBody (BodyOther "a struct")].

Definition exampleBuild : Draw -> string -> RequestBuilder.t
                          -> (Request + error) * RequestBuilder.t :=
  buildRequest exampleParseAny exampleMac exampleEncode exampleMarshal
    exampleNewRequestError exampleCanonicalKey backwardSchedule backwardVisits.

Definition exampleTransport (req : Request) (calls : nat)
  : (HttpResponse + error) * nat :=
  (inl (mkHttpResponse (if (calls <? 2)%nat then 503 else 200) ∅ "ok" None),
   S calls).

End Exec.

(** ** The multipart form builder (multipart.go) *)

Module FormBuilder.

Import Multipart.

(** The calls of the fluent surface; a nil byte slice and a nil reader
    are [None]. *)
Inductive FormCall : Type :=
  | AddField (name value : string)
  | AddFile (fieldName fileName : string) (data : option string)
  | AddFileReader (fieldName fileName : string) (reader : option ioReader).

Definition addCall (formData : MultipartFormData) (c : FormCall)
  : MultipartFormData :=
  match c with
  | AddField name value =>
      mkMultipartFormData (Fields formData ++ [mkFormField name value])
        (Files formData)
  | AddFile fieldName fileName data =>
      mkMultipartFormData (Fields formData)
        (Files formData ++ [mkFormFile fieldName fileName data None])
  | AddFileReader fieldName fileName reader =>
      mkMultipartFormData (Fields formData)
        (Files formData ++ [mkFormFile fieldName fileName None reader])
  end.

(** [MultipartFormBody()] starts from [&MultipartFormData{}]. *)
Definition formOf (calls : list FormCall) : MultipartFormData :=
  foldl addCall (mkMultipartFormData [] []) calls.

Definition isAddField (c : FormCall) : bool :=
  match c with AddField _ _ => true | _ => false end.

Definition asField (c : FormCall) : option FormField :=
  match c with
  | AddField name value => Some (mkFormField name value)
  | _ => None
  end.

Definition asFile (c : FormCall) : option FormFile :=
  match c with
  | AddField _ _ => None
  | AddFile fieldName fileName data =>
      Some (mkFormFile fieldName fileName data None)
  | AddFileReader fieldName fileName reader =>
      Some (mkFormFile fieldName fileName None reader)
  end.


End FormBuilder.

(** ** A built client in its heap *)

Module Shared.

Import Builder.

(** What [buildClient] leaves behind, starting from an empty heap: the
    client's query parameters at location 1, its headers at location 2. *)
Definition builtClient : Client.t :=
  Client.mk "https://api.example.com" (Some 1%positive) (Some 2%positive)
    EmptyString.

Definition builtHeap : Heap :=
  <[2%positive := ∅]> (<[1%positive := <["k" := "1"]> ∅]> ∅).

Definition builtBuilder : ClientBuilder.t :=
  ClientBuilder.mk "https://api.example.com" (Some 1%positive)
    (Some 2%positive) EmptyString.

(** The maps of a client builder are allocated. *)
Definition builderAllocated (b : ClientBuilder.t) (h : Heap) : Prop :=
  (exists l, ClientBuilder.queryParams b = Some l /\ is_Some (h !! l)) /\
  (exists l, ClientBuilder.headers b = Some l /\ is_Some (h !! l)).

End Shared.

(** * Properties *)

(** ** Machine integers *)

Lemma wrap_inRange z : Int64.inRange (Int64.wrap z).
Proof.
  unfold Int64.inRange, Int64.wrap, Int64.minInt, Int64.maxInt.
  pose proof (Z.mod_pos_bound (z + 2 ^ 63) (2 ^ 64) ltac:(lia)). lia.
Qed.

Lemma wrap_id z : Int64.inRange z -> Int64.wrap z = z.
Proof.
  unfold Int64.inRange, Int64.wrap, Int64.minInt, Int64.maxInt. intros Hz.
  rewrite Z.mod_small by lia. lia.
Qed.

Lemma add_one_below_max a m :
  0 <= a -> a < m -> Int64.inRange m -> Int64.add a 1 = a + 1.
Proof.
  unfold Int64.add. intros Ha Hlt Hm. apply wrap_id.
  unfold Int64.inRange, Int64.minInt, Int64.maxInt in *. lia.
Qed.

(** ** Failure classification *)

Import Retry.

Lemma singleton_split {A} (x k : A) pre post :
  [x] = pre ++ k :: post -> pre = [] /\ k = x /\ post = [].
Proof.
  destruct pre as [|y pre]; simpl; intros H.
  - by injection H as -> <-.
  - injection H as _ H. by destruct pre.
Qed.

Lemma errorsAsNetError_chain e :
  errorsAsNetError e = Some true <-> IsTimeout e.
Proof.
  unfold IsTimeout. induction e as [| |k|k inner IH]; simpl.
  - split; [discriminate|]. intros (pre & k & post & Hc & Hpre & Hk).
    apply singleton_split in Hc as (_ & -> & _). discriminate.
  - split; [discriminate|]. intros (pre & k & post & Hc & Hpre & Hk).
    apply singleton_split in Hc as (_ & -> & _). discriminate.
  - split.
    + intros Hk. exists [], k, []. by repeat split.
    + intros (pre & k' & post & Hc & Hpre & Hk).
      by apply singleton_split in Hc as (_ & -> & _).
  - destruct (netTimeout k) as [t|] eqn:Hk.
    + split.
      * intros [= ->]. exists [], k, (chain inner). by repeat split.
      * intros (pre & k' & post & Hc & Hpre & Hk').
        destruct pre as [|k0 pre]; simpl in Hc; injection Hc as -> Hc.
        -- congruence.
        -- apply Forall_cons in Hpre as [Hk0 _]. congruence.
    + rewrite IH. split.
      * intros (pre & k' & post & Hc & Hpre & Hk').
        exists (k :: pre), k', post. rewrite Hc. repeat split; auto.
      * intros (pre & k' & post & Hc & Hpre & Hk').
        destruct pre as [|k0 pre]; simpl in Hc; injection Hc as -> Hc.
        -- congruence.
        -- apply Forall_cons in Hpre as [_ Hpre]. eauto 10.
Qed.

Lemma errorsAsDNSError_chain e :
  errorsAsDNSError e = true <-> IsDNSFailure e.
Proof.
  unfold IsDNSFailure. induction e as [| |k|k inner IH]; simpl.
  - split; [discriminate|]. intros [t Ht]. apply list_elem_of_singleton in Ht.
    discriminate.
  - split; [discriminate|]. intros [t Ht]. apply list_elem_of_singleton in Ht.
    discriminate.
  - split.
    + destruct k; try discriminate. intros _. eexists. apply list_elem_of_singleton.
      reflexivity.
    + intros [t Ht]. apply list_elem_of_singleton in Ht. by subst.
  - rewrite orb_true_iff, IH. split.
    + intros [Hk|[t Ht]].
      * destruct k; try discriminate. eexists. left.
      * exists t. by right.
    + intros [t Ht]. apply elem_of_cons in Ht as [<-|Ht]; [by left|].
      right. eauto.
Qed.

Lemma shouldRetry_error e s :
  shouldRetry (Some e) s = true <-> IsTimeout e \/ IsDNSFailure e.
Proof.
  rewrite <- errorsAsNetError_chain, <- errorsAsDNSError_chain. simpl.
  destruct (errorsAsNetError e) as [[]|]; intuition congruence.
Qed.

Lemma shouldRetry_status s :
  shouldRetry None s = true <-> 500 <= s \/ s = 429.
Proof.
  simpl. unfold StatusInternalServerError, StatusTooManyRequests.
  rewrite orb_true_iff, Z.leb_le, Z.eqb_eq. reflexivity.
Qed.

(** ** The retry loop *)

Lemma backoffDuration_exact b a :
  0 <= a < Int64.maxInt ->
  Int64.inRange (b * (a + 1) * Millisecond) ->
  backoffDuration b a = b * (a + 1) * Millisecond.
Proof.
  unfold backoffDuration, Int64.mul, Int64.add, Millisecond. intros Ha Hr.
  assert (Hr' : Int64.inRange (b * (a + 1))).
  { unfold Int64.inRange, Int64.minInt, Int64.maxInt in *. nia. }
  rewrite (wrap_id (a + 1)).
  - rewrite (wrap_id (b * (a + 1))) by exact Hr'. by apply wrap_id.
  - unfold Int64.inRange, Int64.minInt, Int64.maxInt in *. lia.
Qed.

Section ExecutorFacts.

Context {St : Type}.
Variable cfg : RetryConfig.
Variable fn : St -> (option Response * option error) * St.

Abbreviation run := (loop cfg fn).

(** One iteration of the loop whose condition holds. *)
Lemma loop_step fuel attempt lr le st :
  attempt <= MaxRetries cfg ->
  run (S fuel) attempt lr le st =
    let '((resp, err), st1) := fn st in
    prepend [EvAttempt resp err]
      match isTerminalSuccess resp err with
      | None => (Panicked, st1, [])
      | Some true => (Returned resp None, st1, [])
      | Some false =>
          if attempt =? MaxRetries cfg then (afterLoop resp err, st1, [])
          else if negb (retryDecision resp err) then
            (afterLoop resp err, st1, [])
          else
            prepend [EvSleep (backoffDuration (BackoffMs cfg) attempt)]
              (run fuel (Int64.add attempt 1) resp err st1)
      end.
Proof.
  intros Hle. simpl. apply Z.leb_le in Hle. by rewrite Hle.
Qed.



Lemma retryDecision_nil resp :
  isTerminalSuccess resp None = Some false -> retryDecision resp None = true.
Proof.
  unfold isTerminalSuccess, retryDecision. destruct resp as [r|]; [|done].
  intros [= H%negb_false_iff]. unfold shouldRetry in *. rewrite H.
  apply orb_true_r.
Qed.

(** How a run can end, read off its last attempt. *)
Lemma loop_exit n :
  forall attempt fuel lr le st,
    Int64.inRange (MaxRetries cfg) -> 0 <= attempt ->
    attempt + Z.of_nat n = MaxRetries cfg -> (n < fuel)%nat ->
    exists o st' tr tr0 resp err s,
      run fuel attempt lr le st = (o, st', tr) /\
      tr = tr0 ++ [EvAttempt resp err] /\
      (fn s).1 = (resp, err) /\
      (attempts tr <= S n)%nat /\
      match isTerminalSuccess resp err with
      | None => o = Panicked
      | Some true => o = Returned resp None
      | Some false =>
          o = afterLoop resp err /\ (err = None -> attempts tr = S n)
      end.
Proof.
  induction n as [|n IH]; intros attempt fuel lr le st Hmax Ha Hn Hfuel;
    (destruct fuel as [|fuel]; [lia|]);
    rewrite loop_step by lia;
    destruct (fn st) as [[resp err] st1] eqn:Hst.
  - destruct (isTerminalSuccess resp err) as [[]|] eqn:Hts; simpl.
    + exists (Returned resp None), st1, [EvAttempt resp err], [], resp, err, st.
      rewrite Hst, Hts. simpl. repeat split; auto.
    + assert ((attempt =? MaxRetries cfg) = true) as -> by (apply Z.eqb_eq; lia).
      exists (afterLoop resp err), st1, [EvAttempt resp err], [], resp, err, st.
      rewrite Hst, Hts. simpl. repeat split; auto.
    + exists Panicked, st1, [EvAttempt resp err], [], resp, err, st.
      rewrite Hst, Hts. simpl. repeat split; auto.
  - destruct (isTerminalSuccess resp err) as [[]|] eqn:Hts; simpl.
    + exists (Returned resp None), st1, [EvAttempt resp err], [], resp, err, st.
      rewrite Hst, Hts. simpl. unfold attempts. simpl. repeat split; auto; lia.
    + assert ((attempt =? MaxRetries cfg) = false) as -> by (apply Z.eqb_neq; lia).
      destruct (retryDecision resp err) eqn:Hrd; simpl.
      * rewrite (add_one_below_max attempt (MaxRetries cfg)) by first [assumption | lia].
        destruct (IH (attempt + 1) fuel resp err st1)
          as (o & st' & tr & tr0 & resp' & err' & s & Hrun & Htr & Hs & Hcnt & Hend);
          [done|lia|lia|lia|].
        rewrite Hrun. simpl.
        exists o, st', (EvAttempt resp err
          :: EvSleep (backoffDuration (BackoffMs cfg) attempt) :: tr),
          (EvAttempt resp err
          :: EvSleep (backoffDuration (BackoffMs cfg) attempt) :: tr0),
          resp', err', s.
        split; [done|]. split; [by rewrite Htr|]. split; [done|].
        unfold attempts in *. simpl. split; [lia|].
        destruct (isTerminalSuccess resp' err') as [[]|]; auto.
        destruct Hend as [Ho Hn']. split; [done|]. intros ->. by rewrite Hn'.
      * exists (afterLoop resp err), st1, [EvAttempt resp err], [], resp, err, st.
        rewrite Hst, Hts. simpl. unfold attempts. simpl.
        repeat split; auto; try lia.
        intros ->. rewrite retryDecision_nil in Hrd; done.
    + exists Panicked, st1, [EvAttempt resp err], [], resp, err, st.
      rewrite Hst, Hts. simpl. unfold attempts. simpl. repeat split; auto; lia.
Qed.

(** The durations passed to [time.Sleep], by position. *)
Lemma loop_sleeps n :
  forall attempt fuel lr le st i d,
    Int64.inRange (MaxRetries cfg) -> 0 <= attempt ->
    attempt + Z.of_nat n = MaxRetries cfg -> (n < fuel)%nat ->
    sleeps (run fuel attempt lr le st).2 !! i = Some d ->
    d = backoffDuration (BackoffMs cfg) (attempt + Z.of_nat i) /\
    attempt + Z.of_nat i < MaxRetries cfg.
Proof.
  induction n as [|n IH]; intros attempt fuel lr le st i d Hmax Ha Hn Hfuel;
    (destruct fuel as [|fuel]; [lia|]);
    rewrite loop_step by lia;
    destruct (fn st) as [[resp err] st1] eqn:Hst.
  - destruct (isTerminalSuccess resp err) as [[]|]; simpl; try done.
    assert ((attempt =? MaxRetries cfg) = true) as -> by (apply Z.eqb_eq; lia).
    done.
  - destruct (isTerminalSuccess resp err) as [[]|]; simpl; try done.
    assert ((attempt =? MaxRetries cfg) = false) as -> by (apply Z.eqb_neq; lia).
    destruct (retryDecision resp err); simpl; [|done].
    rewrite (add_one_below_max attempt (MaxRetries cfg)) by first [assumption | lia].
    specialize (IH (attempt + 1) fuel resp err st1).
    destruct (run fuel (attempt + 1) resp err st1) as [[o st'] tr]. simpl in *.
    destruct i as [|i]; simpl.
    + intros [= <-]. rewrite Z.add_0_r. split; [done|lia].
    + intros Hd. destruct (IH i d) as [-> Hlt]; [done|lia|lia|lia|done|].
      replace (attempt + 1 + Z.of_nat i) with (attempt + Z.of_nat (S i)) by lia.
      split; [done|lia].
Qed.

End ExecutorFacts.

Section ExecutorRuns.

Context {St : Type}.
Variable cfg : RetryConfig.
Variable fn : St -> (option Response * option error) * St.

Lemma fuelFor_enough :
  0 <= MaxRetries cfg -> (Z.to_nat (MaxRetries cfg) < fuelFor cfg)%nat.
Proof. unfold fuelFor. lia. Qed.

(** With a negative [MaxRetries] the loop body never runs. *)
Lemma executeWithRetry_negative st :
  MaxRetries cfg < 0 ->
  executeWithRetry cfg fn st = (Returned None (Some ErrMaxRetriesExceeded), st, []).
Proof.
  intros Hneg. unfold executeWithRetry, fuelFor. simpl.
  assert ((0 <=? MaxRetries cfg) = false) as -> by (apply Z.leb_gt; lia).
  reflexivity.
Qed.

(** The model never runs out of fuel: the loop terminates. *)
Lemma executeWithRetry_total st :
  Int64.inRange (MaxRetries cfg) ->
  (executeWithRetry cfg fn st).1.1 <> OutOfFuel.
Proof.
  intros Hmax. destruct (Z.lt_ge_cases (MaxRetries cfg) 0) as [Hneg|Hpos].
  - by rewrite executeWithRetry_negative.
  - destruct (loop_exit cfg fn (Z.to_nat (MaxRetries cfg)) 0 (fuelFor cfg) None None st)
      as (o & st' & tr & tr0 & resp & err & s & Hrun & _ & _ & _ & Hend);
      [done|lia|lia|by apply fuelFor_enough|].
    unfold executeWithRetry. rewrite Hrun. simpl.
    destruct (isTerminalSuccess resp err) as [[]|]; try congruence.
    destruct Hend as [-> _]. by destruct err.
Qed.

End ExecutorRuns.




(** C2. [shouldRetry] on a transport error is true exactly for a timeout
    or a DNS resolution failure, whatever the status argument; on a
    completed response it is true exactly for a status of 500 or more, or
    429; and a 404 response is handed back on attempt 0, with one call of
    the attempt function and no sleep. *)
Theorem shouldRetry_classification {St : Type} (cfg : RetryConfig)
    (fn : St -> (option Response * option error) * St) (st st1 : St)
    (r : Response) (e : error) (s : Z) :
  0 <= MaxRetries cfg ->
  fn st = ((Some r, None), st1) ->
  Status r = 404 ->
  (shouldRetry (Some e) s = true <-> IsTimeout e \/ IsDNSFailure e) /\
  (shouldRetry None s = true <-> 500 <= s \/ s = 429) /\
  executeWithRetry cfg fn st
    = (Returned (Some r) None, st1, [EvAttempt (Some r) None]).
Proof.
  intros Hpos Hfn H404.
  split; [apply shouldRetry_error|]. split; [apply shouldRetry_status|].
  unfold executeWithRetry, fuelFor. rewrite loop_step by lia.
  rewrite Hfn. unfold isTerminalSuccess.
  assert (shouldRetry None (Status r) = false) as ->; [|reflexivity].
  rewrite H404. reflexivity.
Qed.

Lemma shouldRetry_classification_witness :
  (shouldRetry (Some parseErr) 503 = true
     <-> IsTimeout parseErr \/ IsDNSFailure parseErr) /\
  (shouldRetry None 503 = true <-> 500 <= 503 \/ 503 = 429) /\
  executeWithRetry (mkRetryConfig 3 1000) (alwaysStatus 404) 0%nat
    = (Returned (Some (respWith 404)) None, 1%nat,
       [EvAttempt (Some (respWith 404)) None]).
Proof.
  apply (shouldRetry_classification (mkRetryConfig 3 1000) (alwaysStatus 404)
           0%nat 1%nat (respWith 404) parseErr 503).
  - simpl. lia.
  - reflexivity.
  - reflexivity.
Defined.

(** C3. With [MaxRetries > 0], a first attempt that fails with a
    non-retryable transport error makes [executeWithRetry] return that very
    error after one call; and [ErrMaxRetriesExceeded] comes back exactly
    when all [MaxRetries + 1] attempts were made and the last one produced
    a retryable response and no error. The attempt function is one that
    never returns the sentinel [ErrMaxRetriesExceeded] itself, and a
    response that comes along with the first error is not retryable
    either. *)
Theorem executeWithRetry_error_surfacing {St : Type} (cfg : RetryConfig)
    (fn : St -> (option Response * option error) * St) (st : St) :
  0 <= MaxRetries cfg <= Int64.maxInt ->
  NeverMaxRetriesExceeded fn ->
  (forall r e st1,
      0 < MaxRetries cfg ->
      fn st = ((r, Some e), st1) ->
      shouldRetry (Some e) 0 = false ->
      (forall r', r = Some r' -> shouldRetry None (Status r') = false) ->
      executeWithRetry cfg fn st
        = (Returned r (Some e), st1, [EvAttempt r (Some e)])) /\
  ((exists r, (executeWithRetry cfg fn st).1.1
                = Returned r (Some ErrMaxRetriesExceeded))
   <->
   (Z.of_nat (attempts (executeWithRetry cfg fn st).2) = MaxRetries cfg + 1 /\
    exists tr0 r,
      (executeWithRetry cfg fn st).2 = tr0 ++ [EvAttempt (Some r) None] /\
      shouldRetry None (Status r) = true)).
Proof.
  intros [Hpos Hmax] Hsent. split.
  - intros r e st1 Hgt Hfn He Hr.
    unfold executeWithRetry, fuelFor. rewrite loop_step by lia.
    rewrite Hfn. unfold isTerminalSuccess.
    assert ((0 =? MaxRetries cfg) = false) as -> by (apply Z.eqb_neq; lia).
    assert (retryDecision r (Some e) = false) as ->; [|reflexivity].
    unfold retryDecision. rewrite He. destruct r as [r'|]; [|done].
    by rewrite (Hr r').
  - destruct (loop_exit cfg fn (Z.to_nat (MaxRetries cfg)) 0 (fuelFor cfg)
                None None st)
      as (o & st' & tr & tr0 & resp & err & s & Hrun & Htr & Hs & Hcnt & Hend).
    { unfold Int64.inRange, Int64.minInt. lia. }
    { lia. } { lia. } { by apply fuelFor_enough. }
    unfold executeWithRetry. rewrite Hrun. cbn [fst snd]. split.
    + intros [r Ho]. subst o.
      unfold isTerminalSuccess in Hend. destruct err as [e|].
      * destruct Hend as [Hend _]. simpl in Hend. injection Hend as _ <-.
        specialize (Hsent s). rewrite Hs in Hsent. by destruct Hsent.
      * destruct resp as [r'|]; [|discriminate].
        destruct (shouldRetry None (Status r')) eqn:Hsr; simpl in Hend;
          [|discriminate].
        destruct Hend as [_ Hn]. split; [rewrite Hn by done; lia|].
        exists tr0, r'. by split.
    + intros [Hn (tr1 & r & Htr1 & Hsr)].
      rewrite Htr in Htr1. apply app_inj_tail in Htr1 as [_ [= -> ->]].
      unfold isTerminalSuccess in Hend. rewrite Hsr in Hend. simpl in Hend.
      destruct Hend as [-> _]. by exists (Some r).
Qed.

Lemma alwaysStatus_never_sentinel status :
  NeverMaxRetriesExceeded (alwaysStatus status).
Proof. intros s. discriminate. Qed.

Lemma alwaysFails_never_sentinel e :
  e <> ErrMaxRetriesExceeded -> NeverMaxRetriesExceeded (alwaysFails e).
Proof. intros He s. simpl. congruence. Qed.

Lemma executeWithRetry_error_surfacing_witness :
  executeWithRetry (mkRetryConfig 2 1000) (alwaysFails parseErr) 0%nat
    = (Returned None (Some parseErr), 1%nat, [EvAttempt None (Some parseErr)]) /\
  ((exists r, (executeWithRetry (mkRetryConfig 2 1000) (alwaysStatus 503) 0%nat).1.1
                = Returned r (Some ErrMaxRetriesExceeded))
   <->
   (Z.of_nat (attempts (executeWithRetry (mkRetryConfig 2 1000)
                          (alwaysStatus 503) 0%nat).2) = 2 + 1 /\
    exists tr0 r,
      (executeWithRetry (mkRetryConfig 2 1000) (alwaysStatus 503) 0%nat).2
        = tr0 ++ [EvAttempt (Some r) None] /\
      shouldRetry None (Status r) = true)).
Proof.
  split.
  - apply (proj1 (executeWithRetry_error_surfacing (mkRetryConfig 2 1000)
                    (alwaysFails parseErr) 0%nat
                    ltac:(vm_compute; split; discriminate)
                    (alwaysFails_never_sentinel parseErr ltac:(discriminate)))).
    + simpl. lia.
    + reflexivity.
    + reflexivity.
    + intros r' Hr'. discriminate Hr'.
  - apply (proj2 (executeWithRetry_error_surfacing (mkRetryConfig 2 1000)
                    (alwaysStatus 503) 0%nat
                    ltac:(vm_compute; split; discriminate)
                    (alwaysStatus_never_sentinel 503))).
Defined.

(** C4, as stated, fails once the product leaves the 64-bit range of
    [time.Duration]: with a base backoff of 10^13 ms the duration passed to
    [time.Sleep] after attempt 0 has wrapped around to a negative number
    of nanoseconds. *)
Lemma backoff_wraps_counterexample :
  sleeps (executeWithRetry (mkRetryConfig 1 (10 ^ 13)) alwaysTimeout 0%nat).2 !! 0%nat
    = Some (-8446744073709551616) /\
  -8446744073709551616 <> 10 ^ 13 * (0 + 1) * Millisecond.
Proof. split; [vm_compute; reflexivity|vm_compute; discriminate]. Qed.

(** C4, amended. The duration passed to [time.Sleep] before retry [i + 1]
    is [BackoffMs * (i + 1)] milliseconds whenever that product, counted in
    nanoseconds, fits a signed 64-bit integer; with a base of 1000 ms the
    sleeps after attempts 0, 1, 2 last 1000, 2000 and 3000 ms. *)
Theorem backoff_linear {St : Type} (cfg : RetryConfig)
    (fn : St -> (option Response * option error) * St) (st : St)
    (i : nat) (d : Z) :
  Int64.inRange (MaxRetries cfg) ->
  sleeps (executeWithRetry cfg fn st).2 !! i = Some d ->
  Int64.inRange (BackoffMs cfg * (Z.of_nat i + 1) * Millisecond) ->
  d = BackoffMs cfg * (Z.of_nat i + 1) * Millisecond /\
  sleeps (executeWithRetry (mkRetryConfig 3 1000) alwaysTimeout 0%nat).2
    = [1000 * Millisecond; 2000 * Millisecond; 3000 * Millisecond].
Proof.
  intros Hmax Hd Hfit. split; [|reflexivity].
  destruct (Z.lt_ge_cases (MaxRetries cfg) 0) as [Hneg|Hpos].
  - rewrite executeWithRetry_negative in Hd by done. discriminate.
  - destruct (loop_sleeps cfg fn (Z.to_nat (MaxRetries cfg)) 0 (fuelFor cfg)
                None None st i d) as [-> Hlt];
      [done|lia|lia|by apply fuelFor_enough|exact Hd|].
    rewrite Z.add_0_l in *. apply backoffDuration_exact; [|done].
    unfold Int64.inRange in Hmax. lia.
Qed.

Lemma backoff_linear_witness :
  2000 * Millisecond = 1000 * (Z.of_nat 1 + 1) * Millisecond /\
  sleeps (executeWithRetry (mkRetryConfig 3 1000) alwaysTimeout 0%nat).2
    = [1000 * Millisecond; 2000 * Millisecond; 3000 * Millisecond].
Proof.
  apply (backoff_linear (mkRetryConfig 3 1000) (alwaysStatus 503) 0%nat 1%nat).
  - vm_compute. split; discriminate.
  - reflexivity.
  - vm_compute. split; discriminate.
Defined.

(** ** OAuth1: the merged parameter set and its normal form *)

Import OAuth1.

Section MapIteration.

Context {V : Type}.

(** Writing the visited entries one by one into a map rebuilds the map
    they came from, on top of what was there. *)
Lemma foldl_insert_union (l : list (string * V)) (acc : gmap string V) :
  NoDup l.*1 ->
  foldl (fun all kv => <[kv.1 := kv.2]> all) acc l = list_to_map l ∪ acc.
Proof.
  revert acc. induction l as [|[k v] l IH]; intros acc Hnd; simpl.
  - by rewrite (left_id_L ∅ (∪)).
  - apply NoDup_cons in Hnd as [Hk Hnd]. rewrite IH by done.
    rewrite <- insert_union_l. symmetry. apply insert_union_r.
    by apply not_elem_of_list_to_map.
Qed.

Lemma visited_NoDup (m : gmap string V) (l : list (string * V)) :
  l ≡ₚ map_to_list m -> NoDup l.*1.
Proof. intros ->. apply NoDup_fst_map_to_list. Qed.

Lemma visited_to_map (m : gmap string V) (l : list (string * V)) :
  l ≡ₚ map_to_list m -> list_to_map l = m.
Proof.
  intros Hl. rewrite (list_to_map_proper l (map_to_list m)).
  - apply list_to_map_to_list.
  - by apply (visited_NoDup m).
  - done.
Qed.

Lemma foldl_collect_keys (l : list (string * V)) (acc : list string) :
  foldl (fun keys kv => keys ++ [kv.1]) acc l = acc ++ l.*1.
Proof.
  revert acc. induction l as [|kv l IH]; intros acc; simpl.
  - by rewrite app_nil_r.
  - rewrite IH. by rewrite <- app_assoc.
Qed.

End MapIteration.

Lemma foldl_collect_authParts (l : list (string * string)) (acc : list string) :
  foldl (fun parts kv => parts ++ [authPart kv]) acc l = acc ++ (authPart <$> l).
Proof.
  revert acc. induction l as [|kv l IH]; intros acc; simpl.
  - by rewrite app_nil_r.
  - rewrite IH. by rewrite <- app_assoc.
Qed.

Lemma copyParams_visited (params : gmap string string) l :
  l ≡ₚ map_to_list params -> copyParams l = params.
Proof.
  intros Hl. unfold copyParams.
  rewrite foldl_insert_union by (by apply (visited_NoDup params)).
  rewrite (visited_to_map params) by done. apply (right_id_L ∅ (∪)).
Qed.

Lemma overlayQuery_union (l : list (string * list string))
    (all : gmap string string) :
  NoDup l.*1 ->
  overlayQuery all l = omap head (list_to_map l : gmap string (list string)) ∪ all.
Proof.
  unfold overlayQuery. revert all.
  induction l as [|[k vs] l IH]; intros all Hnd; simpl.
  - by rewrite omap_empty, (left_id_L ∅ (∪)).
  - apply NoDup_cons in Hnd as [Hk Hnd]. simpl in Hk.
    apply not_elem_of_list_to_map in Hk.
    assert (Hk' : omap head (list_to_map l : gmap string (list string)) !! k = None).
    { by rewrite lookup_omap, Hk. }
    destruct vs as [|v vs]; cbn [fst snd]; rewrite IH by done.
    + rewrite omap_insert_None by done. by rewrite delete_id.
    + rewrite (omap_insert_Some _ _ _ _ v) by done.
      rewrite <- insert_union_l. symmetry. by apply insert_union_r.
Qed.

(** The merged set does not depend on the order of iteration: it is the
    first value of every query key, over the oauth parameters. *)
Lemma mergeParams_union sch params query :
  validSchedule sch ->
  mergeParams sch params query = omap head query ∪ params.
Proof.
  intros (Hp & Hq & _). unfold mergeParams.
  rewrite (copyParams_visited params) by apply Hp.
  rewrite overlayQuery_union by (by apply (visited_NoDup query)).
  by rewrite (visited_to_map query).
Qed.

Lemma sortStrings_Permutation l1 l2 :
  l1 ≡ₚ l2 -> sortStrings l1 = sortStrings l2.
Proof.
  intros Hl. unfold sortStrings. apply (Sorted_unique String.le).
  - apply Sorted_merge_sort; apply _.
  - apply Sorted_merge_sort; apply _.
  - by rewrite !merge_sort_Permutation.
Qed.

Lemma sortedKeys_canonical sch (allParams : gmap string string) :
  validSchedule sch ->
  sortedKeys sch allParams = sortStrings (map_to_list allParams).*1.
Proof.
  intros (_ & _ & Ha & _). unfold sortedKeys.
  rewrite foldl_collect_keys. simpl. apply sortStrings_Permutation.
  by rewrite (Ha allParams).
Qed.

Lemma paramString_schedule sch1 sch2 allParams :
  validSchedule sch1 -> validSchedule sch2 ->
  paramString sch1 allParams = paramString sch2 allParams.
Proof.
  intros H1 H2. unfold paramString. by rewrite !sortedKeys_canonical.
Qed.

Lemma forwardSchedule_valid : validSchedule forwardSchedule.
Proof. by repeat split. Qed.

Lemma backwardSchedule_valid : validSchedule backwardSchedule.
Proof. repeat split; intros m; apply reverse_Permutation. Qed.




(** C7. A query parameter whose key is also present among the oauth
    parameters replaces the oauth value in the merged set. *)
Theorem mergeParams_query_wins (sch : Schedule)
    (params : gmap string string) (query : gmap string (list string))
    (key v : string) (vs : list string) :
  validSchedule sch ->
  query !! key = Some (v :: vs) ->
  mergeParams sch params query !! key = Some v.
Proof.
  intros Hsch Hq. rewrite mergeParams_union by done.
  apply lookup_union_Some_l. by rewrite lookup_omap, Hq.
Qed.

Lemma mergeParams_query_wins_witness :
  mergeParams backwardSchedule (oauthParams exampleConfig "drawn" "1700000000")
    exampleQuery !! "oauth_nonce" = Some "chosen".
Proof.
  apply (mergeParams_query_wins backwardSchedule
           (oauthParams exampleConfig "drawn" "1700000000") exampleQuery
           "oauth_nonce" "chosen" []).
  - exact backwardSchedule_valid.
  - vm_compute. reflexivity.
Defined.

(** Keys the query does not mention keep the oauth value. *)
Lemma mergeParams_other_keys sch params (query : gmap string (list string)) key :
  validSchedule sch ->
  query !! key = None ->
  mergeParams sch params query !! key = params !! key.
Proof.
  intros Hsch Hq. rewrite mergeParams_union by done.
  apply lookup_union_r. by rewrite lookup_omap, Hq.
Qed.

Section SignerFacts.

Variable urlParse : string -> URL + error.
Variable hmacSHA1 : string -> string -> string.
Variable base64Encode : string -> string.

Lemma generateOAuth1Signature_schedule sch1 sch2 oauth method fullURL params :
  validSchedule sch1 -> validSchedule sch2 ->
  generateOAuth1Signature urlParse hmacSHA1 base64Encode sch1 oauth method
      fullURL params
  = generateOAuth1Signature urlParse hmacSHA1 base64Encode sch2 oauth method
      fullURL params.
Proof.
  intros H1 H2. unfold generateOAuth1Signature.
  destruct (urlParse fullURL) as [u|err]; [|done].
  rewrite !mergeParams_union by done.
  by rewrite (paramString_schedule sch1 sch2).
Qed.

(** The header value is as independent of the iteration order as the
    signature it carries. *)
Lemma generateOAuth1Header_schedule sch1 sch2 oauth nonce timestamp method fullURL :
  validSchedule sch1 -> validSchedule sch2 ->
  generateOAuth1Header urlParse hmacSHA1 base64Encode sch1 oauth nonce
      timestamp method fullURL
  = generateOAuth1Header urlParse hmacSHA1 base64Encode sch2 oauth nonce
      timestamp method fullURL.
Proof.
  intros H1 H2. unfold generateOAuth1Header.
  rewrite (generateOAuth1Signature_schedule sch1 sch2) by done.
  destruct (generateOAuth1Signature _ _ _ sch2 _ _ _ _) as [signature|err];
    [|done].
  rewrite !foldl_collect_authParts. simpl.
  set (params := <["oauth_signature" := signature]> _).
  rewrite (sortStrings_Permutation
             (authPart <$> rangeHeaderParams sch1 params)
             (authPart <$> rangeHeaderParams sch2 params)); [done|].
  destruct H1 as (_ & _ & _ & ->). by destruct H2 as (_ & _ & _ & ->).
Qed.

End SignerFacts.

(** C9. With the nonce, the timestamp, the credentials, the URL and the
    method fixed, two runs of the signature computation give the same
    signature, whatever order the runtime walks the maps in on each
    run. *)
Theorem generateOAuth1Signature_deterministic
    (urlParse : string -> URL + error)
    (hmacSHA1 : string -> string -> string)
    (base64Encode : string -> string)
    (run1 run2 : Schedule) (oauth : OAuth1Config)
    (nonce timestamp method fullURL : string) :
  validSchedule run1 -> validSchedule run2 ->
  generateOAuth1Signature urlParse hmacSHA1 base64Encode run1 oauth method
      fullURL (oauthParams oauth nonce timestamp)
  = generateOAuth1Signature urlParse hmacSHA1 base64Encode run2 oauth method
      fullURL (oauthParams oauth nonce timestamp).
Proof.
  intros H1 H2. by apply generateOAuth1Signature_schedule.
Qed.

Lemma generateOAuth1Signature_deterministic_witness :
  generateOAuth1Signature exampleParse exampleMac exampleEncode
      forwardSchedule exampleConfig "GET" exampleURL
      (oauthParams exampleConfig "drawn" "1700000000")
  = generateOAuth1Signature exampleParse exampleMac exampleEncode
      backwardSchedule exampleConfig "GET" exampleURL
      (oauthParams exampleConfig "drawn" "1700000000").
Proof.
  apply (generateOAuth1Signature_deterministic exampleParse exampleMac
           exampleEncode forwardSchedule backwardSchedule exampleConfig
           "drawn" "1700000000" "GET" exampleURL).
  - exact forwardSchedule_valid.
  - exact backwardSchedule_valid.
Defined.

(** ** Request builders and the client's default maps *)

Import Builder.

Lemma Do_reads_only b h : exists sent, Do b h = Some (sent, h).
Proof. unfold Do, buildUrl, buildRequest, mapEntries, bind, ret. eauto. Qed.

(** Operations other than [QueryParam] touch no map but the builder's own
    header map. *)
Lemma chainOps_headers_only ops :
  forall b h l,
    RequestBuilder.headers b = Some l -> is_Some (h !! l) ->
    Forall (fun op => isQueryParam op = false) ops ->
    exists r h',
      chainOps ops b h = Some (r, h') /\
      forall l', l' <> l -> h' !! l' = h !! l'.
Proof.
  induction ops as [|op ops IH]; intros b h l Hb [entries Hl] Hops.
  - exists (b, []), h. by split.
  - apply Forall_cons in Hops as [Hop Hops].
    destruct op as [key value|key value|]; [discriminate| |].
    + destruct (IH b (<[l := <[key := value]> entries]> h) l) as (r & h' & Hrun & Hframe);
        [done|by rewrite lookup_insert_eq|done|].
      exists r, h'. split.
      * simpl. unfold bind at 1. unfold Header, bind, mapAssign, ret.
        rewrite Hb, Hl. exact Hrun.
      * intros l' Hne. rewrite Hframe by done. by rewrite lookup_insert_ne.
    + destruct (IH b h l) as (r & h' & Hrun & Hframe); [done|by eexists|done|].
      destruct (Do_reads_only b h) as [sent Hsent].
      exists (r.1, sent :: r.2), h'. split; [|done].
      simpl. unfold bind at 1. rewrite Hsent. unfold bind at 1.
      by rewrite Hrun.
Qed.

Lemma Get_fresh_headers path c h :
  exists b,
    Get path c h = Some (b, <[fresh (dom h) := ∅]> h) /\
    RequestBuilder.client b = c /\
    RequestBuilder.queryParams b = Client.queryParams c /\
    RequestBuilder.headers b = Some (fresh (dom h)).
Proof. eexists. by repeat split. Qed.

Lemma fresh_not_allocated (h : Heap) l : is_Some (h !! l) -> l <> fresh (dom h).
Proof.
  intros Hl ->. apply elem_of_dom in Hl. by apply is_fresh in Hl.
Qed.

(** A request that chains only [Header] and [Do] leaves both default maps
    of the client as they were. *)
Lemma request_without_QueryParam path ops c h :
  clientAllocated c h ->
  Forall (fun op => isQueryParam op = false) ops ->
  exists sent h',
    request path ops c h = Some (sent, h') /\
    clientQueryParams c h' = clientQueryParams c h /\
    clientHeaders c h' = clientHeaders c h.
Proof.
  intros [(lq & Hq & Hlq) (lh & Hh & Hlh)] Hops.
  destruct (Get_fresh_headers path c h) as (b & Hget & _ & _ & Hbh).
  destruct (chainOps_headers_only ops b (<[fresh (dom h) := ∅]> h) (fresh (dom h)))
    as (r & h' & Hrun & Hframe); [done|by rewrite lookup_insert_eq|done|].
  exists r.2, h'. split.
  - unfold request. unfold bind at 1. rewrite Hget. unfold bind at 1.
    by rewrite Hrun.
  - unfold clientQueryParams, clientHeaders. rewrite Hq, Hh.
    rewrite !Hframe by (by apply fresh_not_allocated).
    by rewrite !lookup_insert_ne by (apply not_eq_sym; by apply fresh_not_allocated).
Qed.

(** A per-request [QueryParam] lands in the client's own default map. *)
Lemma request_QueryParam_writes_through path key value c h :
  clientAllocated c h ->
  exists sent h',
    request path [OpQueryParam key value] c h = Some (sent, h') /\
    clientQueryParams c h' = <[key := value]> (clientQueryParams c h).
Proof.
  intros [(lq & Hq & [entries Hlq]) _].
  assert (Hne : lq <> fresh (dom h)) by (by apply fresh_not_allocated).
  eexists _, _. split.
  - unfold request, Get, NewRequestBuilder, Method, Path, makeMap, bind, ret.
    simpl. unfold QueryParam, bind, mapAssign, ret. simpl.
    rewrite Hq. rewrite lookup_insert_ne by done. rewrite Hlq. reflexivity.
  - unfold clientQueryParams. rewrite Hq, lookup_insert_eq, Hlq. reflexivity.
Qed.

(** C6 fails on the code for [QueryParam]: the request builder holds the
    client's own query-parameter map, so a client whose default is [k=1]
    has the default [k=2] once one request has called [QueryParam k 2],
    and the next, plain request on that client sends [k=2] as well. The
    header set on the first request stays private to it. *)
Theorem QueryParam_mutates_client_defaults :
  fst <$> twoRequests ∅ =
    Some ({["k" := "1"]},
          [mkSent {["k" := "2"]} {["X-Request-ID" := "abc123"]}],
          {["k" := "2"]},
          [mkSent {["k" := "2"]} ∅]).
Proof. vm_compute. reflexivity. Qed.

(** ** The multipart encoder *)

Import Multipart.

Lemma append_assoc (a b c : string) : (a +:+ b) +:+ c = a +:+ (b +:+ c).
Proof.
  induction a as [|x a IH]; [reflexivity|].
  change (String x ((a +:+ b) +:+ c) = String x (a +:+ (b +:+ c))).
  by rewrite IH.
Qed.

Lemma append_nil_r (a : string) : a +:+ EmptyString = a.
Proof.
  induction a as [|x a IH]; [reflexivity|].
  change (String x (a +:+ EmptyString) = String x a). by rewrite IH.
Qed.

Lemma renderFrom_app started boundary l1 l2 :
  renderFrom started boundary (l1 ++ l2)
  = renderFrom started boundary l1
      +:+ renderFrom (startedAfter started l1) boundary l2.
Proof.
  destruct l1 as [|p l1]; [done|]. simpl.
  rewrite !append_assoc. do 2 f_equal.
  induction l1 as [|q l1 IH]; simpl; [done|].
  rewrite !append_assoc. by rewrite IH.
Qed.

(** Opening a part and writing its body appends the delimiter line and
    the rendered part. *)
Lemma write_part hdr body w :
  write body (CreatePart hdr w)
  = mkWriter (boundary w)
      (written w +:+ delimiterLine (lastpart w) (boundary w)
         +:+ renderPart (mkPart hdr body))
      true.
Proof.
  unfold write, CreatePart, renderPart, delimiterLine. simpl. f_equal.
  destruct (lastpart w); by rewrite !append_assoc.
Qed.

Lemma writeFields_spec fields :
  forall w,
    writeFields fields w
    = mkWriter (boundary w)
        (written w +:+ renderFrom (lastpart w) (boundary w) (fieldPart <$> fields))
        (startedAfter (lastpart w) (fieldPart <$> fields)).
Proof.
  unfold writeFields.
  induction fields as [|field fields IH]; intros w; simpl.
  - rewrite append_nil_r. by destruct w.
  - rewrite IH. unfold WriteField, CreateFormField. rewrite write_part. simpl.
    f_equal; [|by destruct fields]. by rewrite !append_assoc.
Qed.

Lemma copyBody_spec file part :
  copyBody file part = (write (fileBody file) part, readFailure file).
Proof.
  unfold copyBody, fileBody, readFailure.
  destruct (Reader file) as [r|]; [done|].
  destruct (Data file) as [data|]; [done|]. simpl.
  unfold write. rewrite append_nil_r. by destruct part.
Qed.

Lemma writeFiles_spec files :
  forall w,
    writeFiles files w
    = (mkWriter (boundary w)
         (written w
            +:+ renderFrom (lastpart w) (boundary w) (filePart <$> reached files))
         (startedAfter (lastpart w) (filePart <$> reached files)),
       firstFailure files).
Proof.
  induction files as [|file files IH]; intros w; simpl.
  - rewrite append_nil_r. by destruct w.
  - rewrite copyBody_spec. unfold CreateFormFile. rewrite write_part.
    destruct (readFailure file) as [e|]; simpl.
    + by rewrite append_nil_r.
    + rewrite IH. simpl. f_equal. f_equal.
      * by rewrite !append_assoc.
      * by destruct (reached files).
Qed.

Lemma reached_all files :
  readersSucceed files -> reached files = files /\ firstFailure files = None.
Proof.
  unfold readersSucceed. induction 1 as [|file files Hfile _ [IH1 IH2]]; [done|].
  simpl. assert (readFailure file = None) as ->.
  { unfold readFailure. destruct (Reader file) as [r|]; [by apply Hfile|done]. }
  by rewrite IH1, IH2.
Qed.

(** The stream of any plan: the fields, then the files the loop reached,
    each after its delimiter line; the closing delimiter unless a reader
    failed. *)
Lemma buildMultipartForm_stream boundary formData :
  buildMultipartForm boundary formData
  = (mkStream
       (renderParts boundary
          ((fieldPart <$> Fields formData)
             ++ (filePart <$> reached (Files formData)))
        +:+ match firstFailure (Files formData) with
            | Some _ => EmptyString
            | None => closeDelimiter boundary
            end)
       (firstFailure (Files formData)),
     "multipart/form-data; boundary=" +:+ boundary).
Proof.
  unfold buildMultipartForm. rewrite writeFields_spec, writeFiles_spec.
  unfold renderParts. rewrite renderFrom_app. simpl.
  destruct (firstFailure (Files formData)) as [e|]; simpl.
  - by rewrite append_nil_r.
  - unfold Close, write, closeDelimiter. simpl. by rewrite !append_assoc.
Qed.

Lemma reached_prefix files : reached files `prefix_of` files.
Proof.
  induction files as [|file files IH]; simpl; [done|].
  destruct (readFailure file).
  - by apply prefix_cons, prefix_nil.
  - by apply prefix_cons.
Qed.

(** C8. For every plan, the encoded stream is the field parts in insertion
    order, then the file parts in insertion order as far as the loop got
    (all of them, followed by the closing delimiter, when no reader
    fails); and reading back the stream of the plan with field [a = 1] and
    file [f] holding [hello] gives the field [a] with [1], then the file
    [f] with [hello]. *)
Theorem buildMultipartForm_fields_then_files (boundary : string)
    (formData : MultipartFormData) :
  (buildMultipartForm boundary formData).1
    = mkStream
        (renderParts boundary
           ((fieldPart <$> Fields formData)
              ++ (filePart <$> reached (Files formData)))
         +:+ match firstFailure (Files formData) with
             | Some _ => EmptyString
             | None => closeDelimiter boundary
             end)
        (firstFailure (Files formData)) /\
  (readersSucceed (Files formData) ->
   (buildMultipartForm boundary formData).1
     = mkStream
         (renderParts boundary
            ((fieldPart <$> Fields formData) ++ (filePart <$> Files formData))
          +:+ closeDelimiter boundary)
         None) /\
  parseMultipart exampleBoundary
    (bytes (buildMultipartForm exampleBoundary examplePlan).1)
    = Some [mkDecoded "a" None "1"; mkDecoded "f" (Some "f") "hello"].
Proof.
  split; [by rewrite buildMultipartForm_stream|].
  split; [|vm_compute; reflexivity].
  intros Hok. rewrite buildMultipartForm_stream. cbn [fst].
  destruct (reached_all (Files formData) Hok) as [-> ->]. reflexivity.
Qed.

Lemma examplePlan_readers_succeed : readersSucceed (Files examplePlan).
Proof. repeat constructor. intros r Hr. discriminate Hr. Qed.

Lemma buildMultipartForm_fields_then_files_witness :
  (buildMultipartForm exampleBoundary examplePlan).1
    = mkStream
        (renderParts exampleBoundary
           ((fieldPart <$> Fields examplePlan) ++ (filePart <$> Files examplePlan))
         +:+ closeDelimiter exampleBoundary)
        None.
Proof.
  apply (proj1 (proj2 (buildMultipartForm_fields_then_files exampleBoundary
                         examplePlan))).
  exact examplePlan_readers_succeed.
Defined.

Lemma reached_middle before after file file' :
  filePart file = filePart file' -> readFailure file = readFailure file' ->
  filePart <$> reached (before ++ file :: after)
    = filePart <$> reached (before ++ file' :: after) /\
  firstFailure (before ++ file :: after)
    = firstFailure (before ++ file' :: after).
Proof.
  intros Hpart Hfail.
  induction before as [|g before [IH1 IH2]];
    cbn [app reached firstFailure].
  - rewrite Hfail. destruct (readFailure file'); by rewrite !fmap_cons, Hpart.
  - destruct (readFailure g); [done|]. by rewrite !fmap_cons, IH1, IH2.
Qed.

(** C10. A file entry with both a buffer and a reader is encoded from the
    reader: the part body is what the reader yields, and the stream is the
    one the same plan gives with the buffer dropped. *)
Theorem copyBody_reader_over_data (boundary : string)
    (fields : list FormField) (before after : list FormFile)
    (file : FormFile) (r : ioReader) (data : string) :
  Reader file = Some r ->
  Data file = Some data ->
  (forall part, copyBody file part = (write (content r) part, failure r)) /\
  buildMultipartForm boundary
      (mkMultipartFormData fields (before ++ file :: after))
  = buildMultipartForm boundary
      (mkMultipartFormData fields (before ++ withoutData file :: after)).
Proof.
  intros Hr Hd. split.
  - intros part. unfold copyBody. by rewrite Hr.
  - rewrite !buildMultipartForm_stream. cbn [Files Fields].
    destruct (reached_middle before after file (withoutData file)) as [-> ->].
    + unfold filePart, fileBody. simpl. by rewrite Hr.
    + unfold readFailure. simpl. by rewrite Hr.
    + reflexivity.
Qed.

Lemma copyBody_reader_over_data_witness :
  (forall part,
      copyBody bothSources part = (write "from the reader" part, None)) /\
  buildMultipartForm exampleBoundary
      (mkMultipartFormData [mkFormField "a" "1"]
         ([] ++ bothSources :: Files examplePlan))
  = buildMultipartForm exampleBoundary
      (mkMultipartFormData [mkFormField "a" "1"]
         ([] ++ withoutData bothSources :: Files examplePlan)).
Proof.
  apply (copyBody_reader_over_data exampleBoundary [mkFormField "a" "1"] []
           (Files examplePlan) bothSources (mkReader "from the reader" None)
           "from the buffer").
  - reflexivity.
  - reflexivity.
Defined.

(** * Further properties of the code *)

(** ** Whole runs of the retry loop *)

Import RetryRuns.

Lemma Alternating_counts tr :
  Alternating tr -> attempts tr = S (length (sleeps tr)).
Proof.
  induction 1 as [resp err|resp err d tr _ IH]; [reflexivity|].
  unfold attempts in *. simpl. by rewrite IH.
Qed.

Section RunFacts.

Context {St : Type}.
Variable cfg : RetryConfig.
Variable fn : St -> (option Response * option error) * St.

Lemma loop_alternating n :
  forall attempt fuel lr le st,
    Int64.inRange (MaxRetries cfg) -> 0 <= attempt ->
    attempt + Z.of_nat n = MaxRetries cfg -> (n < fuel)%nat ->
    Alternating (loop cfg fn fuel attempt lr le st).2.
Proof.
  induction n as [|n IH]; intros attempt fuel lr le st Hmax Ha Hn Hfuel;
    (destruct fuel as [|fuel]; [lia|]);
    rewrite loop_step by lia;
    destruct (fn st) as [[resp err] st1].
  - destruct (isTerminalSuccess resp err) as [[]|]; simpl; try constructor.
    assert ((attempt =? MaxRetries cfg) = true) as -> by (apply Z.eqb_eq; lia).
    constructor.
  - destruct (isTerminalSuccess resp err) as [[]|]; simpl; try constructor.
    assert ((attempt =? MaxRetries cfg) = false) as -> by (apply Z.eqb_neq; lia).
    destruct (retryDecision resp err); simpl; [|constructor].
    rewrite (add_one_below_max attempt (MaxRetries cfg)) by first [assumption | lia].
    specialize (IH (attempt + 1) fuel resp err st1 Hmax ltac:(lia) ltac:(lia) ltac:(lia)).
    destruct (loop cfg fn fuel (attempt + 1) resp err st1) as [[o st'] tr].
    simpl in *. by constructor.
Qed.

(** As long as the attempts go on and the budget lasts, the loop follows
    the closure from state to state. *)
Lemma loop_goes_on k :
  forall attempt fuel lr le st,
    Int64.inRange (MaxRetries cfg) -> 0 <= attempt ->
    attempt + Z.of_nat k <= MaxRetries cfg ->
    (Z.to_nat (MaxRetries cfg - attempt) < fuel)%nat ->
    (forall i, (i < k)%nat -> goesOn (outcomeAt fn i st)) ->
    (0 < k)%nat ->
    exists lr' le',
      loop cfg fn fuel attempt lr le st
      = prepend (rounds fn (BackoffMs cfg) k attempt st)
          (loop cfg fn (fuel - k) (attempt + Z.of_nat k) lr' le'
             (stateAfter fn k st)).
Proof.
  induction k as [|k IH]; intros attempt fuel lr le st Hmax Ha Hk Hfuel Hgo Hpos;
    [lia|].
  destruct fuel as [|fuel]; [lia|]. rewrite loop_step by lia.
  pose proof (Hgo O ltac:(lia)) as [Hts Hrd]. unfold outcomeAt in Hts, Hrd.
  cbn [stateAfter rounds] in *.
  destruct (fn st) as [[resp err] st1] eqn:Hst. cbn [fst snd] in *.
  rewrite Hts, Hrd.
  assert ((attempt =? MaxRetries cfg) = false) as -> by (apply Z.eqb_neq; lia).
  cbn [negb].
  rewrite (add_one_below_max attempt (MaxRetries cfg)) by first [assumption | lia].
  replace (attempt + Z.of_nat (S k)) with (attempt + 1 + Z.of_nat k) by lia.
  replace (S fuel - S k)%nat with (fuel - k)%nat by lia.
  destruct k as [|k].
  - exists resp, err. rewrite Z.add_0_r, Nat.sub_0_r. cbn [stateAfter rounds].
    by destruct (loop cfg fn fuel (attempt + 1) resp err st1) as [[o s] tr].
  - destruct (IH (attempt + 1) fuel resp err st1) as (lr' & le' & Hrun);
      [done|lia|lia|lia| |lia|].
    { intros i Hi. specialize (Hgo (S i) ltac:(lia)).
      unfold outcomeAt in *. cbn [stateAfter] in Hgo. by rewrite Hst in Hgo. }
    exists lr', le'. rewrite Hrun.
    by destruct (loop cfg fn (fuel - S k) (attempt + 1 + Z.of_nat (S k)) lr' le'
                   (stateAfter fn (S k) st1)) as [[o s] tr].
Qed.

Lemma rounds_attempts b k attempt st :
  attempts (rounds fn b k attempt st) = k.
Proof.
  revert attempt st. induction k as [|k IH]; intros attempt st; [done|].
  unfold attempts in *. simpl. by rewrite IH.
Qed.

Lemma rounds_sleeps b k attempt st :
  sleeps (rounds fn b k attempt st)
  = (fun i => backoffDuration b (attempt + Z.of_nat i)) <$> seq 0 k.
Proof.
  revert attempt st. induction k as [|k IH]; intros attempt st; [done|].
  cbn [rounds sleeps omap list_omap]. cbn [seq fmap list_fmap].
  rewrite Z.add_0_r. f_equal. unfold sleeps in IH. rewrite IH.
  rewrite <- seq_shift. rewrite <- list_fmap_compose.
  apply list_fmap_ext. intros _ i _. simpl. f_equal. lia.
Qed.

End RunFacts.

Lemma run_shape {St : Type} (cfg : RetryConfig)
    (fn : St -> (option Response * option error) * St) (st : St) :
  0 <= MaxRetries cfg -> Int64.inRange (MaxRetries cfg) ->
  Alternating (executeWithRetry cfg fn st).2 /\
  Z.of_nat (attempts (executeWithRetry cfg fn st).2) <= MaxRetries cfg + 1.
Proof.
  intros Hpos Hr.
  pose proof (loop_alternating cfg fn (Z.to_nat (MaxRetries cfg)) 0
                (fuelFor cfg) None None st Hr ltac:(lia) ltac:(lia)
                (fuelFor_enough cfg Hpos)) as Halt.
  destruct (loop_exit cfg fn (Z.to_nat (MaxRetries cfg)) 0 (fuelFor cfg)
              None None st Hr ltac:(lia) ltac:(lia) (fuelFor_enough cfg Hpos))
    as (o & st' & tr & _ & _ & _ & _ & Hrun & _ & _ & Hcnt & _).
  unfold executeWithRetry in *. rewrite Hrun in *. cbn [snd] in *.
  split; [done|lia].
Qed.

(** X1. Whatever the attempt function does, a run with [MaxRetries >= 0]
    is a sequence of attempts with exactly one sleep between any two: at
    least one attempt, at most [MaxRetries + 1], and one sleep fewer than
    attempts. *)
Theorem executeWithRetry_trace_shape {St : Type} (cfg : RetryConfig)
    (fn : St -> (option Response * option error) * St) (st : St) :
  0 <= MaxRetries cfg <= Int64.maxInt ->
  Alternating (executeWithRetry cfg fn st).2 /\
  (1 <= attempts (executeWithRetry cfg fn st).2)%nat /\
  Z.of_nat (attempts (executeWithRetry cfg fn st).2) <= MaxRetries cfg + 1 /\
  attempts (executeWithRetry cfg fn st).2
    = S (length (sleeps (executeWithRetry cfg fn st).2)).
Proof.
  intros [Hpos Hmax].
  assert (Hr : Int64.inRange (MaxRetries cfg)).
  { unfold Int64.inRange, Int64.minInt. lia. }
  destruct (run_shape cfg fn st Hpos Hr) as [Halt Hle].
  pose proof (Alternating_counts _ Halt) as Hc.
  repeat split; [done|lia|lia|done].
Qed.

Lemma executeWithRetry_trace_shape_witness :
  Alternating (executeWithRetry (mkRetryConfig 3 1000) (flaky 2) 0%nat).2 /\
  (1 <= attempts (executeWithRetry (mkRetryConfig 3 1000) (flaky 2) 0%nat).2)%nat /\
  Z.of_nat (attempts (executeWithRetry (mkRetryConfig 3 1000) (flaky 2) 0%nat).2)
    <= 3 + 1 /\
  attempts (executeWithRetry (mkRetryConfig 3 1000) (flaky 2) 0%nat).2
    = S (length (sleeps (executeWithRetry (mkRetryConfig 3 1000) (flaky 2) 0%nat).2)).
Proof.
  apply (executeWithRetry_trace_shape (mkRetryConfig 3 1000) (flaky 2) 0%nat).
  vm_compute. split; discriminate.
Defined.

(** X2. With a negative [MaxRetries] the attempt function is never called:
    the caller gets a nil response and [ErrMaxRetriesExceeded], and the
    closure's state is untouched. *)
Theorem executeWithRetry_negative_budget {St : Type} (cfg : RetryConfig)
    (fn : St -> (option Response * option error) * St) (st : St) :
  MaxRetries cfg < 0 ->
  executeWithRetry cfg fn st
    = (Returned None (Some ErrMaxRetriesExceeded), st, []).
Proof.
  intros Hneg. unfold executeWithRetry, fuelFor. cbn [loop].
  destruct (Z.leb_spec 0 (MaxRetries cfg)) as [Hle|_]; [lia|].
  reflexivity.
Qed.

Lemma executeWithRetry_negative_budget_witness :
  executeWithRetry (mkRetryConfig (-1) 1000) (alwaysStatus 200) 0%nat
    = (Returned None (Some ErrMaxRetriesExceeded), 0%nat, []).
Proof.
  apply (executeWithRetry_negative_budget (mkRetryConfig (-1) 1000)
           (alwaysStatus 200) 0%nat).
  simpl. lia.
Defined.

(** X3. A nil error never comes with a nil response or a retryable
    status: when [executeWithRetry] returns a nil error, the response is
    the one of the last attempt, its status is below 500 and is not 429,
    and [IsServerError] is false on it. *)
Theorem executeWithRetry_nil_error {St : Type} (cfg : RetryConfig)
    (fn : St -> (option Response * option error) * St) (st : St)
    (resp : option Response) :
  Int64.inRange (MaxRetries cfg) ->
  (executeWithRetry cfg fn st).1.1 = Returned resp None ->
  exists r tr0,
    resp = Some r /\
    (executeWithRetry cfg fn st).2 = tr0 ++ [EvAttempt (Some r) None] /\
    Status r < 500 /\ Status r <> 429 /\ IsServerError r = false.
Proof.
  intros Hr Hret.
  destruct (Z.lt_ge_cases (MaxRetries cfg) 0) as [Hneg|Hpos].
  { rewrite executeWithRetry_negative in Hret by done. discriminate. }
  destruct (loop_exit cfg fn (Z.to_nat (MaxRetries cfg)) 0 (fuelFor cfg)
              None None st Hr ltac:(lia) ltac:(lia) (fuelFor_enough cfg Hpos))
    as (o & st' & tr & tr0 & resp' & err' & s & Hrun & Htr & _ & _ & Hend).
  unfold executeWithRetry in *. rewrite Hrun in *. cbn [fst snd] in *. subst o.
  unfold isTerminalSuccess in Hend.
  destruct err' as [e|]; [by destruct Hend|].
  destruct resp' as [r|]; [|discriminate].
  destruct (shouldRetry None (Status r)) eqn:Hsr; cbn [negb] in Hend.
  { by destruct Hend. }
  injection Hend as ->. exists r, tr0. split; [done|]. split; [done|].
  assert (Hn : ~ (500 <= Status r \/ Status r = 429)).
  { rewrite <- shouldRetry_status. congruence. }
  split; [lia|]. split; [lia|].
  unfold IsServerError, checkStatus. simpl. apply Z.leb_gt. lia.
Qed.

Lemma executeWithRetry_nil_error_witness :
  exists r tr0,
    Some (respWith 200) = Some r /\
    (executeWithRetry (mkRetryConfig 3 1000) (flaky 2) 0%nat).2
      = tr0 ++ [EvAttempt (Some r) None] /\
    Status r < 500 /\ Status r <> 429 /\ IsServerError r = false.
Proof.
  apply (executeWithRetry_nil_error (mkRetryConfig 3 1000) (flaky 2) 0%nat).
  - vm_compute. split; discriminate.
  - reflexivity.
Defined.

(** X4. If the first [k <= MaxRetries] attempts each call for a retry and
    attempt [k] brings a response that needs none, the caller gets that
    response with a nil error after exactly [k + 1] attempts, the closure
    has been called [k + 1] times, and the [k] sleeps were the backoffs of
    attempts [0] to [k - 1]. *)
Theorem executeWithRetry_recovers {St : Type} (cfg : RetryConfig)
    (fn : St -> (option Response * option error) * St) (st : St)
    (k : nat) (r : Response) :
  0 <= MaxRetries cfg <= Int64.maxInt ->
  Z.of_nat k <= MaxRetries cfg ->
  (forall i, (i < k)%nat -> goesOn (outcomeAt fn i st)) ->
  outcomeAt fn k st = (Some r, None) ->
  shouldRetry None (Status r) = false ->
  exists tr,
    executeWithRetry cfg fn st
      = (Returned (Some r) None, stateAfter fn (S k) st, tr) /\
    attempts tr = S k /\
    sleeps tr
      = (fun i => backoffDuration (BackoffMs cfg) (Z.of_nat i)) <$> seq 0 k.
Proof.
  intros [Hpos Hmax] Hk Hgo Hlast Hsr.
  assert (Hr : Int64.inRange (MaxRetries cfg)).
  { unfold Int64.inRange, Int64.minInt. lia. }
  assert (Hfinal : forall fuel attempt lr le,
             attempt <= MaxRetries cfg ->
             loop cfg fn (S fuel) attempt lr le (stateAfter fn k st)
             = (Returned (Some r) None, stateAfter fn (S k) st,
                [EvAttempt (Some r) None])).
  { intros fuel attempt lr le Hle. rewrite loop_step by done.
    unfold outcomeAt in Hlast.
    replace (stateAfter fn (S k) st) with (fn (stateAfter fn k st)).2.
    - destruct (fn (stateAfter fn k st)) as [[resp err] s1].
      cbn [fst snd] in *. injection Hlast as -> ->.
      unfold isTerminalSuccess. by rewrite Hsr.
    - clear. revert st. induction k as [|k IH]; intros st; [done|].
      cbn [stateAfter]. apply IH. }
  destruct k as [|k].
  - exists [EvAttempt (Some r) None]. split; [|done].
    unfold executeWithRetry, fuelFor. by apply Hfinal.
  - destruct (loop_goes_on cfg fn (S k) 0 (fuelFor cfg) None None st)
      as (lr' & le' & Hrun); [done|lia|lia|unfold fuelFor; lia|done|lia|].
    unfold executeWithRetry. rewrite Hrun.
    replace (fuelFor cfg - S k)%nat with (S (fuelFor cfg - S (S k)))
      by (unfold fuelFor; lia).
    rewrite Hfinal by lia. cbn [prepend].
    eexists. split; [reflexivity|]. split.
    + unfold attempts. rewrite List.filter_app, length_app.
      fold (attempts (rounds fn (BackoffMs cfg) (S k) 0 st)).
      rewrite rounds_attempts. simpl. lia.
    + unfold sleeps. rewrite omap_app. fold (sleeps (rounds fn (BackoffMs cfg) (S k) 0 st)).
      rewrite rounds_sleeps. simpl. by rewrite app_nil_r.
Qed.

Lemma executeWithRetry_recovers_witness :
  exists tr,
    executeWithRetry (mkRetryConfig 3 1000) (flaky 2) 0%nat
      = (Returned (Some (respWith 200)) None, stateAfter (flaky 2) 3 0%nat, tr) /\
    attempts tr = 3%nat /\
    sleeps tr = (fun i => backoffDuration 1000 (Z.of_nat i)) <$> seq 0 2.
Proof.
  apply (executeWithRetry_recovers (mkRetryConfig 3 1000) (flaky 2) 0%nat 2
           (respWith 200)).
  - vm_compute. split; discriminate.
  - simpl. lia.
  - intros [|[|i]] Hi; [by split|by split|lia].
  - reflexivity.
  - reflexivity.
Defined.

Lemma sum_of_linear (c : Z) (l : list Z) :
  (forall i d, l !! i = Some d -> d = c * (Z.of_nat i + 1)) ->
  2 * foldr Z.add 0 l = c * Z.of_nat (length l) * (Z.of_nat (length l) + 1).
Proof.
  induction l as [|x l IH] using rev_ind; intros Hl; [simpl; lia|].
  rewrite foldr_app, length_app. simpl.
  assert (Hx : x = c * (Z.of_nat (length l) + 1)).
  { apply Hl. rewrite lookup_app_r by lia. by rewrite Nat.sub_diag. }
  assert (Hfold : forall a, foldr Z.add a l = foldr Z.add 0 l + a).
  { clear. induction l as [|y l IH]; intros a; simpl; [lia|]. rewrite IH. lia. }
  rewrite Hfold. specialize (IH ltac:(intros i d Hi; apply Hl;
    by rewrite lookup_app_l by (by eapply lookup_lt_Some))).
  nia.
Qed.

(** X5. While the delays stay inside the 64-bit range, the time a run
    spends sleeping is at most [BackoffMs * N * (N + 1) / 2] milliseconds
    for [N = MaxRetries], whatever the attempts return. *)
Theorem totalSleep_bounded {St : Type} (cfg : RetryConfig)
    (fn : St -> (option Response * option error) * St) (st : St) :
  0 <= MaxRetries cfg <= Int64.maxInt ->
  0 <= BackoffMs cfg ->
  BackoffMs cfg * MaxRetries cfg * Millisecond <= Int64.maxInt ->
  2 * totalSleep (executeWithRetry cfg fn st).2
    <= BackoffMs cfg * MaxRetries cfg * (MaxRetries cfg + 1) * Millisecond.
Proof.
  intros [Hpos Hmax] Hb Hfit.
  assert (Hr : Int64.inRange (MaxRetries cfg)).
  { unfold Int64.inRange, Int64.minInt. lia. }
  destruct (run_shape cfg fn st Hpos Hr) as [Halt Hle].
  pose proof (Alternating_counts _ Halt) as Hcnt.
  set (tr := (executeWithRetry cfg fn st).2) in *.
  assert (Hsl : forall i d, sleeps tr !! i = Some d ->
                 d = (BackoffMs cfg * Millisecond) * (Z.of_nat i + 1)).
  { intros i d Hd.
    destruct (loop_sleeps cfg fn (Z.to_nat (MaxRetries cfg)) 0 (fuelFor cfg)
                None None st i d Hr ltac:(lia) ltac:(lia)
                (fuelFor_enough cfg Hpos) Hd) as [-> Hlt].
    rewrite Z.add_0_l in *. rewrite backoffDuration_exact; [lia|lia|].
    unfold Int64.inRange, Int64.minInt, Millisecond in *. nia. }
  unfold totalSleep. rewrite (sum_of_linear _ _ Hsl).
  assert (Hlen : Z.of_nat (length (sleeps tr)) <= MaxRetries cfg) by lia.
  unfold Millisecond in *. nia.
Qed.

Lemma totalSleep_bounded_witness :
  2 * totalSleep (executeWithRetry (mkRetryConfig 3 1000) alwaysTimeout 0%nat).2
    <= 1000 * 3 * (3 + 1) * Millisecond.
Proof.
  apply (totalSleep_bounded (mkRetryConfig 3 1000) alwaysTimeout 0%nat).
  - vm_compute. split; discriminate.
  - simpl. lia.
  - vm_compute. discriminate.
Defined.

(** X6. An attempt that returns a nil response together with a nil error
    makes the loop dereference the nil response: the run panics at that
    attempt, before any sleep. *)
Theorem executeWithRetry_nil_response_panics {St : Type} (cfg : RetryConfig)
    (fn : St -> (option Response * option error) * St) (st st1 : St) :
  0 <= MaxRetries cfg ->
  fn st = ((None, None), st1) ->
  executeWithRetry cfg fn st = (Panicked, st1, [EvAttempt None None]).
Proof.
  intros Hpos Hfn. unfold executeWithRetry, fuelFor.
  rewrite loop_step by lia. by rewrite Hfn.
Qed.

Lemma executeWithRetry_nil_response_panics_witness :
  executeWithRetry (mkRetryConfig 3 1000) nothingAtAll 0%nat
    = (Panicked, 1%nat, [EvAttempt None None]).
Proof.
  apply (executeWithRetry_nil_response_panics (mkRetryConfig 3 1000)
           nothingAtAll 0%nat 1%nat).
  - simpl. lia.
  - reflexivity.
Defined.

(** X7. An attempt that returns an error together with a response of
    retryable status is retried whatever the error is: with budget left,
    the run sleeps and makes a second attempt even if the error alone
    would be terminal. *)
Theorem executeWithRetry_error_with_retryable_response {St : Type}
    (cfg : RetryConfig) (fn : St -> (option Response * option error) * St)
    (st st1 : St) (r : Response) (e : error) :
  0 < MaxRetries cfg <= Int64.maxInt ->
  fn st = ((Some r, Some e), st1) ->
  shouldRetry None (Status r) = true ->
  exists tr,
    (executeWithRetry cfg fn st).2
      = EvAttempt (Some r) (Some e)
          :: EvSleep (backoffDuration (BackoffMs cfg) 0) :: tr /\
    (2 <= attempts (executeWithRetry cfg fn st).2)%nat.
Proof.
  intros [Hpos Hmax] Hfn Hsr.
  assert (Hr : Int64.inRange (MaxRetries cfg)).
  { unfold Int64.inRange, Int64.minInt. lia. }
  unfold executeWithRetry, fuelFor. rewrite loop_step by lia. rewrite Hfn.
  cbn [isTerminalSuccess].
  assert ((0 =? MaxRetries cfg) = false) as -> by (apply Z.eqb_neq; lia).
  assert (retryDecision (Some r) (Some e) = true) as ->.
  { unfold retryDecision. rewrite Hsr. apply orb_true_r. }
  cbn [negb]. rewrite (add_one_below_max 0 (MaxRetries cfg)) by first [assumption|lia].
  pose proof (loop_alternating cfg fn (Z.to_nat (MaxRetries cfg - 1)) (0 + 1)
                (Z.to_nat (MaxRetries cfg + 1)) (Some r) (Some e) st1 Hr
                ltac:(lia) ltac:(lia) ltac:(lia)) as Halt.
  destruct (loop cfg fn (Z.to_nat (MaxRetries cfg + 1)) (0 + 1) (Some r)
              (Some e) st1) as [[o s] tr].
  cbn [prepend snd app] in *. exists tr. split; [done|].
  apply Alternating_counts in Halt. unfold attempts in *. simpl. lia.
Qed.

Lemma executeWithRetry_error_with_retryable_response_witness :
  exists tr,
    (executeWithRetry (mkRetryConfig 1 1000) bothAtOnce 0%nat).2
      = EvAttempt (Some (respWith 503)) (Some parseErr)
          :: EvSleep (backoffDuration 1000 0) :: tr /\
    (2 <= attempts (executeWithRetry (mkRetryConfig 1 1000) bothAtOnce 0%nat).2)%nat.
Proof.
  apply (executeWithRetry_error_with_retryable_response (mkRetryConfig 1 1000)
           bothAtOnce 0%nat 1%nat (respWith 503) parseErr).
  - vm_compute. split; [reflexivity|discriminate].
  - reflexivity.
  - reflexivity.
Defined.

(** ** Response classes (types.go) and the retry decision *)

(** X8. A response is in at most one of the classes [IsSuccess],
    [IsError] and [IsServerError]; a completed response is retried exactly
    when it is a server error or has status 429, so a success is never
    retried and a client error only for 429. *)
Theorem status_classes_and_retry (r : Response) :
  (IsSuccess r && IsError r = false) /\
  (IsSuccess r && IsServerError r = false) /\
  (IsError r && IsServerError r = false) /\
  shouldRetry None (Status r) = IsServerError r || (Status r =? 429) /\
  (IsSuccess r = true -> shouldRetry None (Status r) = false) /\
  (IsError r = true -> (shouldRetry None (Status r) = true <-> Status r = 429)).
Proof.
  unfold IsSuccess, IsError, IsServerError, checkStatus, shouldRetry,
    StatusInternalServerError, StatusTooManyRequests. simpl.
  destruct (Z.leb_spec 200 (Status r)) as [H200|H200],
    (Z.ltb_spec (Status r) 300) as [H300|H300],
    (Z.leb_spec 400 (Status r)) as [H400|H400],
    (Z.ltb_spec (Status r) 500) as [H500|H500],
    (Z.leb_spec 500 (Status r)) as [H5|H5],
    (Z.eqb_spec (Status r) 429) as [H429|H429];
    simpl; try lia;
    (split; [done|]); (split; [done|]); (split; [done|]); (split; [done|]);
    (split; [try done; intros _; lia|]);
    try done; intros _; split; try done; lia.
Qed.

(** ** Percent-encoding *)

Import Unescape.

(** One byte in front of any rest: what [QueryEscape] writes for it is
    safe and is read back as that byte. *)
Lemma QueryEscape_byte c rest :
  QueryEscape (String c rest)
    = QueryEscape (String c EmptyString) +:+ QueryEscape rest /\
  Forall (fun x => isQuerySafe x = true)
         (list_ascii_of_string (QueryEscape (String c EmptyString))) /\
  forall tail,
    QueryUnescape (QueryEscape (String c EmptyString) +:+ tail)
    = String c <$> QueryUnescape tail.
Proof.
  destruct c as [[] [] [] [] [] [] [] []];
    (split; [reflexivity|]; split;
     [repeat constructor|intros tail; reflexivity]).
Qed.

Lemma list_ascii_of_string_app a b :
  list_ascii_of_string (a +:+ b)
  = list_ascii_of_string a ++ list_ascii_of_string b.
Proof.
  induction a as [|x a IH]; [reflexivity|].
  change (x :: list_ascii_of_string (a +:+ b)
          = x :: (list_ascii_of_string a ++ list_ascii_of_string b)).
  by rewrite IH.
Qed.

(** X10. Every byte [url.QueryEscape] puts out is a letter, a digit, one
    of [-_.~], a plus sign or a percent sign; so an encoded key or value
    never contains [&], [=], a comma, a quote or a space. *)
Theorem QueryEscape_alphabet (s : string) :
  Forall (fun c => isQuerySafe c = true /\
                   c <> "&"%char /\ c <> "="%char /\ c <> ","%char /\
                   c <> ascii_of_N 34 /\ c <> " "%char)
         (list_ascii_of_string (QueryEscape s)).
Proof.
  induction s as [|c s IH]; [constructor|].
  destruct (QueryEscape_byte c s) as (-> & Hsafe & _).
  rewrite list_ascii_of_string_app. apply Forall_app. split; [|exact IH].
  eapply Forall_impl; [exact Hsafe|]. intros x Hx.
  split; [exact Hx|]. repeat split; intros ->; discriminate.
Qed.

(** X11. [url.QueryUnescape] undoes [url.QueryEscape] on every string:
    what the signer and [Values.Encode] write, [u.Query()] reads back
    unchanged. *)
Theorem QueryUnescape_QueryEscape (s : string) :
  QueryUnescape (QueryEscape s) = Some s.
Proof.
  induction s as [|c s IH]; [reflexivity|].
  destruct (QueryEscape_byte c s) as (-> & _ & Hback).
  by rewrite Hback, IH.
Qed.

(** ** More on the OAuth1 signer *)

(** X12. For every iteration order, a key of the merged parameter set
    carries the first value the query has for it; a key the query lacks,
    or has with no value, keeps the oauth value; a key in neither is
    absent. *)
Theorem mergeParams_lookup (sch : Schedule) (params : gmap string string)
    (query : gmap string (list string)) (key : string) :
  validSchedule sch ->
  mergeParams sch params query !! key
  = match query !! key with
    | Some (v :: _) => Some v
    | _ => params !! key
    end.
Proof.
  intros Hsch. rewrite mergeParams_union by done.
  rewrite lookup_union, lookup_omap.
  destruct (query !! key) as [[|v vs]|]; simpl;
    by destruct (params !! key).
Qed.

Lemma mergeParams_lookup_witness :
  mergeParams backwardSchedule (oauthParams exampleConfig "drawn" "1700000000")
    (<["oauth_token" := []]> exampleQuery) !! "oauth_token"
  = match (<["oauth_token" := []]> exampleQuery) !! "oauth_token" with
    | Some (v :: _) => Some v
    | _ => oauthParams exampleConfig "drawn" "1700000000" !! "oauth_token"
    end.
Proof.
  apply (mergeParams_lookup backwardSchedule
           (oauthParams exampleConfig "drawn" "1700000000")
           (<["oauth_token" := []]> exampleQuery) "oauth_token").
  exact backwardSchedule_valid.
Defined.

Lemma oauthParams_other_keys oauth nonce1 nonce2 timestamp key :
  key <> "oauth_nonce" ->
  oauthParams oauth nonce1 timestamp !! key
  = oauthParams oauth nonce2 timestamp !! key.
Proof.
  intros Hne. unfold oauthParams. rewrite !lookup_insert.
  repeat case_decide; congruence.
Qed.

(** X13. When the URL itself has a query parameter [oauth_nonce], the
    nonce drawn for the request does not enter the signature: two
    signatures that differ only in the drawn nonce are equal. *)
Theorem signature_ignores_drawn_nonce
    (urlParse : string -> URL + error)
    (hmacSHA1 : string -> string -> string)
    (base64Encode : string -> string)
    (sch : Schedule) (oauth : OAuth1Config)
    (method fullURL nonce1 nonce2 timestamp : string)
    (u : URL) (v : string) (vs : list string) :
  validSchedule sch ->
  urlParse fullURL = inl u ->
  Query u !! "oauth_nonce" = Some (v :: vs) ->
  generateOAuth1Signature urlParse hmacSHA1 base64Encode sch oauth method
      fullURL (oauthParams oauth nonce1 timestamp)
  = generateOAuth1Signature urlParse hmacSHA1 base64Encode sch oauth method
      fullURL (oauthParams oauth nonce2 timestamp).
Proof.
  intros Hsch Hparse Hq. unfold generateOAuth1Signature. rewrite Hparse.
  rewrite !mergeParams_union by done.
  assert (omap head (Query u) ∪ oauthParams oauth nonce1 timestamp
          = omap head (Query u) ∪ oauthParams oauth nonce2 timestamp) as ->;
    [|done].
  apply map_eq. intros key. rewrite !lookup_union.
  destruct (decide (key = "oauth_nonce")) as [->|Hne].
  - rewrite lookup_omap, Hq. simpl.
    by destruct (oauthParams oauth nonce1 timestamp !! "oauth_nonce"),
      (oauthParams oauth nonce2 timestamp !! "oauth_nonce").
  - by rewrite (oauthParams_other_keys oauth nonce1 nonce2).
Qed.

Lemma signature_ignores_drawn_nonce_witness :
  generateOAuth1Signature exampleParse exampleMac exampleEncode
      backwardSchedule exampleConfig "GET" exampleURL
      (oauthParams exampleConfig "drawn" "1700000000")
  = generateOAuth1Signature exampleParse exampleMac exampleEncode
      backwardSchedule exampleConfig "GET" exampleURL
      (oauthParams exampleConfig "another" "1700000000").
Proof.
  apply (signature_ignores_drawn_nonce exampleParse exampleMac exampleEncode
           backwardSchedule exampleConfig "GET" exampleURL "drawn" "another"
           "1700000000"
           (mkURL "https" "api.example.com" "/items" exampleQuery) "chosen" []).
  - exact backwardSchedule_valid.
  - reflexivity.
  - vm_compute. reflexivity.
Defined.

Lemma sortStrings_sorted (l sorted : list string) :
  Sorted String.le sorted -> l ≡ₚ sorted -> sortStrings l = sorted.
Proof.
  intros Hs Hp. unfold sortStrings. apply (Sorted_unique String.le).
  - apply Sorted_merge_sort; apply _.
  - exact Hs.
  - by rewrite merge_sort_Permutation.
Qed.

Lemma oauth_header_params oauth nonce timestamp signature :
  map_to_list (<["oauth_signature" := signature]> (oauthParams oauth nonce timestamp))
  ≡ₚ [("oauth_consumer_key", ConsumerKey oauth);
      ("oauth_nonce", nonce);
      ("oauth_signature", signature);
      ("oauth_signature_method", "HMAC-SHA1");
      ("oauth_timestamp", timestamp);
      ("oauth_token", AccessToken oauth);
      ("oauth_version", "1.0")].
Proof.
  unfold oauthParams.
  repeat (rewrite map_to_list_insert;
          [|rewrite ?lookup_insert_ne by done; apply lookup_empty]).
  rewrite map_to_list_empty.
  apply NoDup_Permutation.
  - apply (NoDup_fmap_1 fst). by apply (bool_decide_unpack _).
  - apply (NoDup_fmap_1 fst). by apply (bool_decide_unpack _).
  - intros x. rewrite !elem_of_cons, !elem_of_nil. tauto.
Qed.

(** X9. Whenever the URL parses, the [Authorization] value is [OAuth]
    followed by the seven parameters in one fixed order, consumer key,
    nonce, signature, signature method, timestamp, token, version,
    whatever their values and whatever order the runtime walks the map
    in. *)
Theorem generateOAuth1Header_format
    (urlParse : string -> URL + error)
    (hmacSHA1 : string -> string -> string)
    (base64Encode : string -> string)
    (sch : Schedule) (oauth : OAuth1Config)
    (nonce timestamp method fullURL signature : string) :
  validSchedule sch ->
  generateOAuth1Signature urlParse hmacSHA1 base64Encode sch oauth method
      fullURL (oauthParams oauth nonce timestamp) = inl signature ->
  generateOAuth1Header urlParse hmacSHA1 base64Encode sch oauth nonce
      timestamp method fullURL
  = inl ("OAuth " +:+
         Join [authPart ("oauth_consumer_key", ConsumerKey oauth);
               authPart ("oauth_nonce", nonce);
               authPart ("oauth_signature", signature);
               authPart ("oauth_signature_method", "HMAC-SHA1");
               authPart ("oauth_timestamp", timestamp);
               authPart ("oauth_token", AccessToken oauth);
               authPart ("oauth_version", "1.0")] ", ").
Proof.
  intros Hsch Hsig. unfold generateOAuth1Header. rewrite Hsig.
  rewrite foldl_collect_authParts. cbn [app]. do 3 f_equal.
  apply sortStrings_sorted.
  - repeat (constructor; [|try constructor; vm_compute; exact I]). constructor.
  - destruct Hsch as (_ & _ & _ & ->). by rewrite oauth_header_params.
Qed.

Lemma generateOAuth1Header_format_witness :
  exists signature,
    generateOAuth1Header exampleParse exampleMac exampleEncode backwardSchedule
      exampleConfig "drawn" "1700000000" "GET" exampleURL
    = inl ("OAuth " +:+
           Join [authPart ("oauth_consumer_key", ConsumerKey exampleConfig);
                 authPart ("oauth_nonce", "drawn");
                 authPart ("oauth_signature", signature);
                 authPart ("oauth_signature_method", "HMAC-SHA1");
                 authPart ("oauth_timestamp", "1700000000");
                 authPart ("oauth_token", AccessToken exampleConfig);
                 authPart ("oauth_version", "1.0")] ", ").
Proof.
  eexists.
  apply (generateOAuth1Header_format exampleParse exampleMac exampleEncode
           backwardSchedule exampleConfig "drawn" "1700000000" "GET" exampleURL).
  - exact backwardSchedule_valid.
  - vm_compute. reflexivity.
Defined.

(** ** One attempt: URL, body and headers *)

Import Exec.

Lemma foldl_insert_fmap_union {A B} (f : A -> B) (l : list (string * A))
    (acc : gmap string B) :
  NoDup l.*1 ->
  foldl (fun q kv => <[kv.1 := f kv.2]> q) acc l
  = (f <$> (list_to_map l : gmap string A)) ∪ acc.
Proof.
  revert acc. induction l as [|[k v] l IH]; intros acc Hnd; cbn [foldl fst snd].
  - by rewrite list_to_map_nil, fmap_empty, (left_id_L ∅ (∪)).
  - apply NoDup_cons in Hnd as [Hk Hnd]. cbn [fst] in Hk.
    rewrite IH by done.
    rewrite list_to_map_cons, fmap_insert, <- insert_union_l.
    symmetry. apply insert_union_r.
    rewrite lookup_fmap. apply not_elem_of_list_to_map in Hk. by rewrite Hk.
Qed.

Section AttemptFacts.

Variable urlParse : string -> URL + error.
Variable urlString : URL -> string -> string.
Variable hmacSHA1 : string -> string -> string.
Variable base64Encode : string -> string.
Variable jsonMarshal : Body -> string + error.
Variable newRequestError : string -> string -> option error.
Variable canonicalKey : string -> string.
Variable sch : Schedule.
Variable vis : Visits.

Lemma finalQuery_union b u :
  validVisits vis ->
  finalQuery vis b u
  = ((fun v => [v]) <$> RequestBuilder.queryParams b) ∪ Query u.
Proof.
  intros (Hq & _). unfold finalQuery, Values_Set.
  rewrite (foldl_insert_fmap_union (fun v => [v]))
    by (by apply (visited_NoDup (RequestBuilder.queryParams b))).
  by rewrite (visited_to_map (RequestBuilder.queryParams b)).
Qed.

Lemma setAll_cons k v visited h :
  setAll canonicalKey ((k, v) :: visited) h
  = setAll canonicalKey visited (<[canonicalKey k := v]> h).
Proof. reflexivity. Qed.

(** A key that [visited] does not write keeps its value. *)
Lemma setAll_other visited h key :
  key ∉ canonicalKey <$> visited.*1 ->
  setAll canonicalKey visited h !! key = h !! key.
Proof.
  revert h. induction visited as [|[k v] l IH]; intros h Hk; [done|].
  rewrite !fmap_cons in Hk. apply not_elem_of_cons in Hk as [Hne Hk].
  rewrite setAll_cons, IH by done. by apply lookup_insert_ne.
Qed.

(** Among keys that stay apart after canonicalisation, every entry is
    found under its canonical key. *)
Lemma setAll_written visited h k v :
  NoDup (canonicalKey <$> visited.*1) ->
  (k, v) ∈ visited ->
  setAll canonicalKey visited h !! canonicalKey k = Some v.
Proof.
  revert h. induction visited as [|[k' v'] l IH]; intros h Hnd Hin;
    [by apply elem_of_nil in Hin|].
  rewrite !fmap_cons in Hnd. apply NoDup_cons in Hnd as [Hk' Hnd].
  rewrite setAll_cons. apply elem_of_cons in Hin as [[= <- <-]|Hin].
  - rewrite setAll_other by done. apply lookup_insert_eq.
  - by apply IH.
Qed.

Lemma requestBody_keeps draw b buf b' :
  requestBody jsonMarshal draw b = (buf, b') ->
  RequestBuilder.client b' = RequestBuilder.client b /\
  RequestBuilder.method b' = RequestBuilder.method b /\
  RequestBuilder.path b' = RequestBuilder.path b /\
  RequestBuilder.queryParams b' = RequestBuilder.queryParams b /\
  RequestBuilder.headers b' = RequestBuilder.headers b /\
  RequestBuilder.body b' = RequestBuilder.body b /\
  (RequestBuilder.contentType b' = RequestBuilder.contentType b \/
   RequestBuilder.contentType b'
   = "multipart/form-data; boundary=" +:+ boundary draw).
Proof.
  unfold requestBody.
  destruct (RequestBuilder.body b) eqn:Hbody;
    repeat (match goal with
            | |- context [if ?c then _ else _] => destruct c
            | |- context [match jsonMarshal ?x with _ => _ end] =>
                destruct (jsonMarshal x)
            end);
    try (intros [= <- <-]; by repeat split; auto).
  rewrite buildMultipartForm_stream.
  intros [= <- <-]. cbn. repeat split; auto.
Qed.

End AttemptFacts.

Lemma chained_contentType c calls :
  RequestBuilder.contentType (chained c calls) = ContentTypeJSON \/
  RequestBuilder.contentType (chained c calls) = ContentTypeFormUrlencoded \/
  RequestBuilder.contentType (chained c calls) = ContentTypeMultipartForm.
Proof.
  unfold chained. induction calls as [|x calls IH] using rev_ind; [by left|].
  rewrite foldl_snoc. destruct x; cbn; auto.
Qed.

Section AttemptRules.

Variable urlParse : string -> URL + error.
Variable urlString : URL -> string -> string.
Variable hmacSHA1 : string -> string -> string.
Variable base64Encode : string -> string.
Variable jsonMarshal : Body -> string + error.
Variable newRequestError : string -> string -> option error.
Variable canonicalKey : string -> string.
Variable sch : Schedule.
Variable vis : Visits.

Abbreviation build :=
  (buildRequest urlParse hmacSHA1 base64Encode jsonMarshal newRequestError
     canonicalKey sch vis).

(** What a successful [buildRequest] has done. *)
Lemma buildRequest_inl draw fullURL b req b' :
  build draw fullURL b = (inl req, b') ->
  exists h0,
    requestBody jsonMarshal draw b = (inl (reqBody req), b') /\
    newRequestError (RequestBuilder.method b') fullURL = None /\
    reqHeader req
    = setContentType canonicalKey b'
        (setAll canonicalKey (visitHeaders vis (RequestBuilder.headers b'))
           (setAll canonicalKey
              (visitClientHeaders vis (Client.headers (RequestBuilder.client b')))
              h0)).
Proof.
  unfold buildRequest.
  destruct (requestBody jsonMarshal draw b) as [[buf|err] b1]; [|discriminate].
  destruct (newRequestError (RequestBuilder.method b1) fullURL) eqn:Hnew;
    [discriminate|].
  destruct (Client.oauth1 (RequestBuilder.client b1)) as [oauth|].
  - destruct (generateOAuth1Header _ _ _ _ _ _ _ _ _) as [authHeader|err];
      [|discriminate].
    intros [= <- <-]. eexists. split; [reflexivity|]. split; [exact Hnew|].
    reflexivity.
  - intros [= <- <-]. eexists. split; [reflexivity|]. split; [exact Hnew|].
    reflexivity.
Qed.

Lemma setContentType_other b h key :
  isNil (RequestBuilder.body b) = true \/ key <> canonicalKey "Content-Type" ->
  setContentType canonicalKey b h !! key = h !! key.
Proof.
  unfold setContentType, Header_Set. intros [->|Hne]; [done|].
  destruct (isNil (RequestBuilder.body b)); [done|].
  repeat (match goal with |- context [if ?c then _ else _] => destruct c end);
    rewrite ?lookup_insert_ne by done; done.
Qed.

(** X16. With a base URL that parses, the query of the built URL has,
    for every key of the builder's query parameters, that one value in
    place of whatever the base URL had for the key, and keeps the other
    keys of the base URL; the order in which the map is walked makes no
    difference. *)
Theorem buildUrl_query (b : RequestBuilder.t) (u : URL) :
  validVisits vis ->
  urlParse (Client.baseUrl (RequestBuilder.client b) +:+ RequestBuilder.path b)
    = inl u ->
  exists q,
    buildUrl urlParse urlString vis b = Some (urlString u (Values_Encode q)) /\
    forall key,
      q !! key = match RequestBuilder.queryParams b !! key with
                 | Some v => Some [v]
                 | None => Query u !! key
                 end.
Proof.
  intros Hvis Hparse. exists (finalQuery vis b u). split.
  - unfold buildUrl. by rewrite Hparse.
  - intros key. rewrite finalQuery_union by done.
    rewrite lookup_union, lookup_fmap.
    destruct (RequestBuilder.queryParams b !! key); simpl;
      by destruct (Query u !! key).
Qed.

(** X17. For a builder obtained from [NewRequestBuilder] by any chain of
    calls and carrying a body, the [Content-Type] header of the request
    is the builder's content type, JSON unless a call changed it (or the
    multipart type with its boundary): neither the client's content type
    nor a [Content-Type] set through [Header] reaches the wire. *)
Theorem buildRequest_content_type (c : Client.t) (calls : list Call)
    (draw : Draw) (fullURL : string) (req : Request) (b' : RequestBuilder.t) :
  isNil (RequestBuilder.body (chained c calls)) = false ->
  build draw fullURL (chained c calls) = (inl req, b') ->
  reqHeader req !! canonicalKey "Content-Type"
    = Some (RequestBuilder.contentType b') /\
  (RequestBuilder.contentType b' = ContentTypeJSON \/
   RequestBuilder.contentType b' = ContentTypeFormUrlencoded \/
   RequestBuilder.contentType b' = ContentTypeMultipartForm \/
   RequestBuilder.contentType b'
     = "multipart/form-data; boundary=" +:+ boundary draw).
Proof.
  intros Hbody Hbuild.
  destruct (buildRequest_inl _ _ _ _ _ Hbuild) as (h0 & Hrb & _ & ->).
  destruct (requestBody_keeps jsonMarshal _ _ _ _ Hrb)
    as (_ & _ & _ & _ & _ & Hb & Hct).
  assert (Hcases :
    RequestBuilder.contentType b' = ContentTypeJSON \/
    RequestBuilder.contentType b' = ContentTypeFormUrlencoded \/
    RequestBuilder.contentType b' = ContentTypeMultipartForm \/
    RequestBuilder.contentType b'
      = "multipart/form-data; boundary=" +:+ boundary draw).
  { destruct Hct as [->| ->]; [|by auto].
    destruct (chained_contentType c calls) as [->|[->| ->]]; auto. }
  split; [|exact Hcases].
  unfold setContentType, Header_Set. rewrite Hb, Hbody.
  assert (String.eqb (RequestBuilder.contentType b') EmptyString = false) as ->.
  { destruct Hcases as [->|[->|[->| ->]]]; reflexivity. }
  apply lookup_insert_eq.
Qed.

(** X18. A header set on the request is sent with the request's value
    under its canonical key, whatever the client has for that key and
    whether or not the request is signed, as long as the request's own
    keys stay apart after canonicalisation and the key is not the
    [Content-Type] of a request with a body. *)
Theorem buildRequest_request_header_wins (draw : Draw) (fullURL : string)
    (b b' : RequestBuilder.t) (req : Request) (k v : string) :
  validVisits vis ->
  NoDup (canonicalKey <$> (map_to_list (RequestBuilder.headers b)).*1) ->
  RequestBuilder.headers b !! k = Some v ->
  isNil (RequestBuilder.body b) = true
    \/ canonicalKey k <> canonicalKey "Content-Type" ->
  build draw fullURL b = (inl req, b') ->
  reqHeader req !! canonicalKey k = Some v.
Proof.
  intros (_ & _ & Hh) Hnd Hk Hct Hbuild.
  destruct (buildRequest_inl _ _ _ _ _ Hbuild) as (h0 & Hrb & _ & ->).
  destruct (requestBody_keeps jsonMarshal _ _ _ _ Hrb)
    as (_ & _ & _ & _ & Hhd & Hb & _).
  rewrite setContentType_other by (by rewrite Hb).
  rewrite Hhd. apply setAll_written.
  - by rewrite (Hh (RequestBuilder.headers b)).
  - rewrite (Hh (RequestBuilder.headers b)). by apply elem_of_map_to_list.
Qed.


End AttemptRules.

Section AttemptAgain.

Variable urlParse : string -> URL + error.
Variable urlString : URL -> string -> string.
Variable hmacSHA1 : string -> string -> string.
Variable base64Encode : string -> string.
Variable jsonMarshal : Body -> string + error.
Variable newRequestError : string -> string -> option error.
Variable canonicalKey : string -> string.
Variable sch : Schedule.
Variable vis : Visits.

Abbreviation build' :=
  (buildRequest urlParse hmacSHA1 base64Encode jsonMarshal newRequestError
     canonicalKey sch vis).

(** The signer fails on a URL exactly when [url.Parse] does, whatever
    nonce and timestamp it draws. *)
Lemma generateOAuth1Header_error oauth nonce1 nonce2 timestamp1 timestamp2
    method fullURL h1 :
  generateOAuth1Header urlParse hmacSHA1 base64Encode sch oauth nonce1
    timestamp1 method fullURL = inl h1 ->
  exists h2,
    generateOAuth1Header urlParse hmacSHA1 base64Encode sch oauth nonce2
      timestamp2 method fullURL = inl h2.
Proof.
  unfold generateOAuth1Header, generateOAuth1Signature.
  destruct (urlParse fullURL); [eauto|discriminate].
Qed.

Lemma requestBody_multipart draw b formData :
  RequestBuilder.body b = BodyFormData formData ->
  RequestBuilder.contentType b = ContentTypeMultipartForm ->
  requestBody jsonMarshal draw b
  = (inl (Some (FromPipe (buildMultipartForm (boundary draw) formData).1)),
     withContentType ("multipart/form-data; boundary=" +:+ boundary draw) b).
Proof.
  intros Hbody Hct. unfold requestBody. rewrite Hbody, Hct.
  change (String.eqb ContentTypeMultipartForm ContentTypeJSON) with false.
  change (String.eqb ContentTypeMultipartForm ContentTypeFormUrlencoded) with false.
  change (String.eqb ContentTypeMultipartForm ContentTypeMultipartForm) with true.
  cbv iota. by rewrite buildMultipartForm_stream.
Qed.

Lemma requestBody_announced draw b formData boundary1 :
  RequestBuilder.body b = BodyFormData formData ->
  RequestBuilder.contentType b = "multipart/form-data; boundary=" +:+ boundary1 ->
  requestBody jsonMarshal draw b = (inl None, b).
Proof.
  intros Hbody Hct. unfold requestBody. rewrite Hbody, Hct. reflexivity.
Qed.

Lemma setContentType_announced b h boundary1 :
  isNil (RequestBuilder.body b) = false ->
  setContentType canonicalKey
    (withContentType ("multipart/form-data; boundary=" +:+ boundary1) b) h
    !! canonicalKey "Content-Type"
  = Some ("multipart/form-data; boundary=" +:+ boundary1).
Proof.
  intros Hbody. unfold setContentType, Header_Set.
  cbn [withContentType RequestBuilder.body RequestBuilder.contentType].
  rewrite Hbody.
  change (String.eqb ("multipart/form-data; boundary=" +:+ boundary1)
            EmptyString) with false.
  cbv iota. apply lookup_insert_eq.
Qed.

(** X20. Once [buildRequest] has built a request for a multipart form,
    the builder carries the announced content type with its boundary, and
    building again from that builder, as every retry does, gives a request
    with no body at all under the old [Content-Type]. *)
Theorem buildRequest_multipart_again (draw1 draw2 : Draw) (fullURL : string)
    (b b1 : RequestBuilder.t) (formData : MultipartFormData) (req1 : Request) :
  RequestBuilder.body b = BodyFormData formData ->
  RequestBuilder.contentType b = ContentTypeMultipartForm ->
  build' draw1 fullURL b = (inl req1, b1) ->
  reqBody req1
    = Some (FromPipe (buildMultipartForm (boundary draw1) formData).1) /\
  exists req2,
    build' draw2 fullURL b1 = (inl req2, b1) /\
    reqBody req2 = None /\
    reqHeader req2 !! canonicalKey "Content-Type"
      = Some ("multipart/form-data; boundary=" +:+ boundary draw1).
Proof.
  intros Hbody Hct Hbuild. unfold buildRequest in Hbuild.
  rewrite (requestBody_multipart draw1 b formData Hbody Hct) in Hbuild.
  set (b1' := withContentType _ b) in Hbuild.
  assert (Hagain : requestBody jsonMarshal draw2 b1' = (inl None, b1')).
  { by apply (requestBody_announced draw2 b1' formData (boundary draw1)). }
  unfold buildRequest. 
  destruct (newRequestError (RequestBuilder.method b1') fullURL) eqn:Hnew;
    [discriminate|].
  destruct (Client.oauth1 (RequestBuilder.client b1')) as [oauth|] eqn:Hoauth.
  - destruct (generateOAuth1Header urlParse hmacSHA1 base64Encode sch oauth
                (nonce draw1) (timestamp draw1) (RequestBuilder.method b1')
                fullURL) as [h1|err] eqn:Hsig; [|discriminate].
    destruct (generateOAuth1Header_error oauth (nonce draw1) (nonce draw2)
                (timestamp draw1) (timestamp draw2) _ _ _ Hsig) as [h2 Hsig2].
    injection Hbuild as <- <-. split; [reflexivity|].
    rewrite Hagain, Hnew, Hoauth, Hsig2. eexists. split; [reflexivity|].
    split; [reflexivity|]. cbn [reqHeader].
    apply setContentType_announced. by rewrite Hbody.
  - injection Hbuild as <- <-. split; [reflexivity|].
    rewrite Hagain, Hnew, Hoauth. eexists. split; [reflexivity|].
    split; [reflexivity|]. cbn [reqHeader].
    apply setContentType_announced. by rewrite Hbody.
Qed.

End AttemptAgain.

Section SendFacts.

Variable urlParse : string -> URL + error.
Variable urlString : URL -> string -> string.
Variable hmacSHA1 : string -> string -> string.
Variable base64Encode : string -> string.
Variable jsonMarshal : Body -> string + error.
Variable newRequestError : string -> string -> option error.
Variable canonicalKey : string -> string.
Variable sch : Schedule.
Variable vis : Visits.

Context {T : Type}.
Variable transport : Request -> T -> (HttpResponse + error) * T.
Variable draws : nat -> Draw.
Variable mode : Mode.

Lemma requestBody_wrong draw b :
  wrongBodyFor (RequestBuilder.contentType b) (RequestBuilder.body b) = true ->
  requestBody jsonMarshal draw b = (inr ErrInvalidBody, b).
Proof.
  unfold wrongBodyFor, requestBody.
  destruct (RequestBuilder.body b); try discriminate.
  - intros ->%String.eqb_eq. reflexivity.
  - intros ->%String.eqb_eq. reflexivity.
  - intros [->%String.eqb_eq| ->%String.eqb_eq]%orb_true_iff; reflexivity.
Qed.

(** X21. A structured body of the wrong type for a form or multipart
    content type ends the send at once: whatever the mode and the retry
    budget, the caller gets [ErrInvalidBody] after a single attempt, with
    no sleep, and the transport is never called. *)
Theorem send_invalid_body (b : RequestBuilder.t) (ts : T) (u : URL) :
  urlParse (Client.baseUrl (RequestBuilder.client b) +:+ RequestBuilder.path b)
    = inl u ->
  0 <= MaxRetries (Client.retryConfig (RequestBuilder.client b)) ->
  wrongBodyFor (RequestBuilder.contentType b) (RequestBuilder.body b) = true ->
  send urlParse urlString hmacSHA1 base64Encode jsonMarshal newRequestError
    canonicalKey sch vis transport draws mode b ts
  = (Returned None (Some ErrInvalidBody), mkDoState b ts 1 [],
     [EvAttempt None (Some ErrInvalidBody)]).
Proof.
  intros Hparse Hpos Hwrong. unfold send. rewrite Hparse.
  unfold executeWithRetry, fuelFor. rewrite loop_step by lia.
  unfold attempt at 1. cbn [builder made transportState unmarshalled].
  unfold buildRequest. rewrite requestBody_wrong by done.
  cbn [isTerminalSuccess prepend].
  destruct (0 =? MaxRetries (Client.retryConfig (RequestBuilder.client b)));
    reflexivity.
Qed.

End SendFacts.

Lemma backwardVisits_valid : validVisits backwardVisits.
Proof. repeat split; intros m; apply reverse_Permutation. Qed.

Lemma buildUrl_query_witness :
  exists q,
    buildUrl exampleParseAny exampleUrlString backwardVisits exampleRequest
      = Some (exampleUrlString
                (mkURL "https" "api.example.com" "/items" (<["page" := ["7"]]> ∅))
                (Values_Encode q)) /\
    forall key,
      q !! key = match RequestBuilder.queryParams exampleRequest !! key with
                 | Some v => Some [v]
                 | None =>
                     Query (mkURL "https" "api.example.com" "/items"
                              (<["page" := ["7"]]> ∅)) !! key
                 end.
Proof.
  apply (buildUrl_query exampleParseAny exampleUrlString backwardVisits
           exampleRequest
           (mkURL "https" "api.example.com" "/items" (<["page" := ["7"]]> ∅))).
  - exact backwardVisits_valid.
  - reflexivity.
Defined.

Lemma buildRequest_content_type_witness :
  exists req b',
    exampleBuild (exampleDraws 0) "https://api.example.com/items" exampleRequest
      = (inl req, b') /\
    reqHeader req !! "Content-Type" = Some ContentTypeJSON.
Proof.
  destruct (exampleBuild (exampleDraws 0) "https://api.example.com/items"
              exampleRequest) as [[req|err] b'] eqn:Hbuild;
    [|vm_compute in Hbuild; discriminate].
  exists req, b'. split; [reflexivity|].
  destruct (buildRequest_content_type exampleParseAny exampleMac exampleEncode
              exampleMarshal exampleNewRequestError exampleCanonicalKey
              backwardSchedule backwardVisits exampleClient
              [CallPath "/items"; CallQueryParam "page" "2";
               CallHeader "X-Trace" "off";
               CallHeader "Content-Type" "text/plain";
               CallBody (BodyString "x")]
              (exampleDraws 0) "https://api.example.com/items" req b'
              eq_refl Hbuild) as [Hct _].
  unfold exampleCanonicalKey in Hct. rewrite Hct.
  vm_compute in Hbuild. by injection Hbuild as _ <-.
Defined.

Lemma buildRequest_request_header_wins_witness :
  exists req b',
    exampleBuild (exampleDraws 0) "https://api.example.com/items" exampleRequest
      = (inl req, b') /\
    reqHeader req !! "X-Trace" = Some "off".
Proof.
  destruct (exampleBuild (exampleDraws 0) "https://api.example.com/items"
              exampleRequest) as [[req|err] b'] eqn:Hbuild;
    [|vm_compute in Hbuild; discriminate].
  exists req, b'. split; [reflexivity|].
  apply (buildRequest_request_header_wins exampleParseAny exampleMac
           exampleEncode exampleMarshal exampleNewRequestError
           exampleCanonicalKey backwardSchedule backwardVisits
           (exampleDraws 0) "https://api.example.com/items" exampleRequest b'
           req "X-Trace" "off").
  - exact backwardVisits_valid.
  - apply (bool_decide_unpack _). vm_compute. exact I.
  - vm_compute. reflexivity.
  - right. discriminate.
  - exact Hbuild.
Defined.


Lemma buildRequest_multipart_again_witness :
  exists req1 b1,
    exampleBuild (exampleDraws 0) "https://api.example.com/upload"
      exampleFormRequest = (inl req1, b1) /\
    reqBody req1
      = Some (FromPipe (buildMultipartForm exampleBoundary examplePlan).1) /\
    exists req2,
      exampleBuild (exampleDraws 1) "https://api.example.com/upload" b1
        = (inl req2, b1) /\
      reqBody req2 = None /\
      reqHeader req2 !! "Content-Type"
        = Some ("multipart/form-data; boundary=" +:+ exampleBoundary).
Proof.
  destruct (exampleBuild (exampleDraws 0) "https://api.example.com/upload"
              exampleFormRequest) as [[req1|err] b1] eqn:Hbuild;
    [|vm_compute in Hbuild; discriminate].
  exists req1, b1. split; [reflexivity|].
  apply (buildRequest_multipart_again exampleParseAny exampleMac exampleEncode
           exampleMarshal exampleNewRequestError exampleCanonicalKey
           backwardSchedule backwardVisits (exampleDraws 0) (exampleDraws 1)
           "https://api.example.com/upload" exampleFormRequest b1 examplePlan
           req1).
  - reflexivity.
  - reflexivity.
  - exact Hbuild.
Defined.

Lemma send_invalid_body_witness :
  send exampleParseAny exampleUrlString exampleMac exampleEncode exampleMarshal
    exampleNewRequestError exampleCanonicalKey backwardSchedule backwardVisits
    exampleTransport exampleDraws ModeRaw exampleWrongRequest 0%nat
  = (Returned None (Some ErrInvalidBody),
     mkDoState exampleWrongRequest 0%nat 1 [],
     [EvAttempt None (Some ErrInvalidBody)]).
Proof.
  apply (send_invalid_body exampleParseAny exampleUrlString exampleMac
           exampleEncode exampleMarshal exampleNewRequestError
           exampleCanonicalKey backwardSchedule backwardVisits exampleTransport
           exampleDraws ModeRaw exampleWrongRequest 0%nat
           (mkURL "https" "api.example.com" "/items" (<["page" := ["7"]]> ∅))).
  - reflexivity.
  - vm_compute. discriminate.
  - reflexivity.
Defined.

(** ** The multipart form builder *)

Import FormBuilder.

Lemma formOf_snoc calls c : formOf (calls ++ [c]) = addCall (formOf calls) c.
Proof. unfold formOf. by rewrite foldl_snoc. Qed.

Lemma formOf_entries calls :
  Fields (formOf calls) = omap asField calls /\
  Files (formOf calls) = omap asFile calls.
Proof.
  induction calls as [|c calls [IHf IHg]] using rev_ind; [done|].
  rewrite formOf_snoc, !omap_app.
  destruct c; cbn [addCall Fields Files omap list_omap asField asFile];
    rewrite IHf, IHg, ?app_nil_r; done.
Qed.

(** X22. A form put together through [AddField], [AddFile] and
    [AddFileReader] has its fields and its files in the order of the
    calls, and none of its files has both a buffer and a reader. *)
Theorem formOf_invariant (calls : list FormCall) :
  Fields (formOf calls) = omap asField calls /\
  Files (formOf calls) = omap asFile calls /\
  Forall (fun file => Data file = None \/ Reader file = None)
         (Files (formOf calls)).
Proof.
  destruct (formOf_entries calls) as [Hf Hg].
  split; [exact Hf|]. split; [exact Hg|]. rewrite Hg.
  clear. induction calls as [|c calls IH]; [constructor|].
  destruct c; cbn [omap list_omap asFile]; [exact IH| |];
    constructor; cbn; auto.
Qed.

Lemma omap_filter_fields calls :
  omap asField (List.filter isAddField calls) = omap asField calls /\
  omap asFile (List.filter isAddField calls) = [] /\
  omap asField (List.filter (fun c => negb (isAddField c)) calls) = [] /\
  omap asFile (List.filter (fun c => negb (isAddField c)) calls)
    = omap asFile calls.
Proof.
  induction calls as [|c calls (IH1 & IH2 & IH3 & IH4)]; [done|].
  destruct c; cbn [List.filter isAddField negb omap list_omap asField asFile];
    rewrite ?IH1, ?IH2, ?IH3, ?IH4; done.
Qed.

(** X23. The encoded stream does not depend on how calls for fields and
    calls for files were interleaved: it is the stream of the same calls
    with every [AddField] moved before every file. *)
Theorem buildMultipartForm_interleaving (boundary : string)
    (calls : list FormCall) :
  buildMultipartForm boundary (formOf calls)
  = buildMultipartForm boundary
      (formOf (List.filter isAddField calls
                 ++ List.filter (fun c => negb (isAddField c)) calls)).
Proof.
  f_equal.
  destruct (formOf_entries calls) as [Hf Hg].
  destruct (formOf_entries
              (List.filter isAddField calls
                 ++ List.filter (fun c => negb (isAddField c)) calls))
    as [Hf' Hg'].
  destruct (omap_filter_fields calls) as (H1 & H2 & H3 & H4).
  rewrite omap_app, H1, H3, app_nil_r in Hf'.
  rewrite omap_app, H2, H4 in Hg'. cbn [app] in Hg'.
  destruct (formOf calls) as [fs gs], (formOf _) as [fs' gs'].
  cbn [Fields Files] in *. congruence.
Qed.





(** ** Builders and the maps they share *)

Import Shared.

Lemma buildClient_built : buildClient ∅ = Some (builtClient, builtHeap).
Proof. vm_compute. reflexivity. Qed.


Lemma builtBuilder_allocated : builderAllocated builtBuilder builtHeap.
Proof.
  split; eexists; (split; [reflexivity|]); vm_compute; eauto.
Qed.



(** X15. [Build] hands the builder's own maps to the client: a header or
    query parameter set on the client builder after [Build] shows up in
    the defaults of the client built before, and a second client built
    from the same builder has the same defaults as the first. *)
Theorem Build_shares_maps (b : Builder.ClientBuilder.t) (h : Heap)
    (key value : string) :
  builderAllocated b h ->
  exists c1 b1 h1 c2,
    Build b h = Some (c1, h) /\
    ClientBuilder_Header key value b h = Some (b1, h1) /\
    Build b1 h1 = Some (c2, h1) /\
    clientHeaders c1 h1 = <[key := value]> (clientHeaders c1 h) /\
    clientHeaders c2 h1 = clientHeaders c1 h1 /\
    clientQueryParams c2 h1 = clientQueryParams c1 h1.
Proof.
  intros [_ (lh & Hh & [entries Hlh])].
  eexists _, b, (<[lh := <[key := value]> entries]> h), _.
  split; [reflexivity|]. split.
  { unfold ClientBuilder_Header, bind, mapAssign, ret. by rewrite Hh, Hlh. }
  split; [reflexivity|].
  unfold clientHeaders, clientQueryParams. cbn [Builder.Client.headers Builder.Client.queryParams].
  rewrite Hh, lookup_insert_eq, Hlh. by repeat split.
Qed.

Lemma Build_shares_maps_witness :
  exists c1 b1 h1 c2,
    Build builtBuilder builtHeap = Some (c1, builtHeap) /\
    ClientBuilder_Header "Authorization" "Bearer t" builtBuilder builtHeap
      = Some (b1, h1) /\
    Build b1 h1 = Some (c2, h1) /\
    clientHeaders c1 h1
      = <["Authorization" := "Bearer t"]> (clientHeaders c1 builtHeap) /\
    clientHeaders c2 h1 = clientHeaders c1 h1 /\
    clientQueryParams c2 h1 = clientQueryParams c1 h1.
Proof.
  apply (Build_shares_maps builtBuilder builtHeap "Authorization" "Bearer t").
  exact builtBuilder_allocated.
Defined.
